(** * ARM_FaultStorage: the persisted fault record, its CRC-32 seal and the
      capture routine

    A shallow embedding of [Fault/Source/ARM_FaultStorage.c]:

    - [CalcCRC32], [ARM_FaultClear] and [ARM_FaultOccurred] are C functions and
      become Rocq functions over the memory of the record;
    - [ARM_FaultSave] is a naked function written in Thumb assembly.  Every
      instruction is a state transformer over a small machine state (low and
      high registers, the link register, the four condition flags and the
      other bits of xPSR, the banked stack pointers, the record, the bus)
      and every labelled section of the source is the composition of its
      instructions, with the conditional branches as the two continuations
      they select.

    32-bit quantities are integers of [Z]; wrap-around is written out with
    [wrap32] where the hardware wraps. *)

From Stdlib Require Import ZArith List Bool Lia.
Import ListNotations.
Local Open Scope Z_scope.

(** ** 32-bit words *)

Definition wrap32 (x : Z) : Z := x mod 2 ^ 32.

(** ** Memory

    The record [ARM_FaultInfo] is an array of 32-bit words.  Its cells are
    addressed by their byte offset from [&ARM_FaultInfo]; the operands
    [%c[..._addr]] of the assembly are such offsets.  Everything else the
    routine reads (the stacked frame, the memory-mapped System Control Block)
    is read through [bus], addressed by absolute address; the capture
    routine never writes it, and [ARM_FaultExit] writes one of its cells.
    A stack pointer that points into the record itself is outside this
    model. *)

Definition memory := Z -> Z.

Definition load (m : memory) (a : Z) : Z := m a.

Definition store (a v : Z) (m : memory) : memory :=
  fun x => if x =? a then v else m x.

(** Little-endian byte [a] of a word-organised memory (the [ldrb] of the
    assembly and the [*data_ptr] of the C code). *)
Definition load_byte (m : memory) (a : Z) : Z :=
  Z.land (Z.shiftr (m (a - a mod 4)) (8 * (a mod 4))) 255.

(** ** Layout of [ARM_FaultInfo_t] *)

(** Modelled from the spec: the type [ARM_FaultInfo_t] is declared in
    [ARM_Fault.h], which is not part of the sources.  The field order is the
    one the spec gives as the stable interface (magic_number, crc32, count,
    info, register groups, fault-status groups); the groups stored by one
    [stm] are contiguous, as the assembly requires.  Offsets are in bytes. *)
Module Layout.
Definition magic_number_addr : Z := 0.
Definition crc32_addr : Z := 4.
Definition count_addr : Z := 8.
Definition info_addr : Z := 12.
Definition r0_addr : Z := 16.    (* R0 R1 R2 R3 *)
Definition r4_addr : Z := 32.    (* R4 .. R11 *)
Definition r12_addr : Z := 64.   (* R12 LR ReturnAddress xPSR *)
Definition EXC_xPSR_addr : Z := 80.  (* EXC_xPSR EXC_RETURN MSP PSP MSPLIM PSPLIM *)
Definition csfr_reg_addr : Z := 104. (* CFSR HFSR DFSR MMFAR BFAR AFSR *)
Definition sfsr_reg_addr : Z := 128. (* SFSR SFAR *)
Definition rfsr_reg_addr : Z := 136. (* RFSR *)
Definition IntegritySignature_addr : Z := 140.
(** [sizeof(ARM_FaultInfo)] *)
Definition sizeof_ARM_FaultInfo : Z := 144.
End Layout.
Import Layout.

(** Named cells of the record, for statements. *)
Module Field.
Definition magic_number (m : memory) := load m magic_number_addr.
Definition crc32 (m : memory) := load m crc32_addr.
Definition count (m : memory) := load m count_addr.
Definition info (m : memory) := load m info_addr.
Definition R0 (m : memory) := load m r0_addr.
Definition R1 (m : memory) := load m (r0_addr + 4).
Definition R2 (m : memory) := load m (r0_addr + 8).
Definition R3 (m : memory) := load m (r0_addr + 12).
Definition R4 (m : memory) := load m r4_addr.
Definition R5 (m : memory) := load m (r4_addr + 4).
Definition R6 (m : memory) := load m (r4_addr + 8).
Definition R7 (m : memory) := load m (r4_addr + 12).
Definition R8 (m : memory) := load m (r4_addr + 16).
Definition R9 (m : memory) := load m (r4_addr + 20).
Definition R10 (m : memory) := load m (r4_addr + 24).
Definition R11 (m : memory) := load m (r4_addr + 28).
Definition R12 (m : memory) := load m r12_addr.
Definition LR (m : memory) := load m (r12_addr + 4).
Definition ReturnAddress (m : memory) := load m (r12_addr + 8).
Definition xPSR (m : memory) := load m (r12_addr + 12).
Definition EXC_xPSR (m : memory) := load m EXC_xPSR_addr.
Definition EXC_RETURN (m : memory) := load m (EXC_xPSR_addr + 4).
Definition MSP (m : memory) := load m (EXC_xPSR_addr + 8).
Definition PSP (m : memory) := load m (EXC_xPSR_addr + 12).
Definition MSPLIM (m : memory) := load m (EXC_xPSR_addr + 16).
Definition PSPLIM (m : memory) := load m (EXC_xPSR_addr + 20).
Definition CFSR (m : memory) := load m csfr_reg_addr.
Definition HFSR (m : memory) := load m (csfr_reg_addr + 4).
Definition DFSR (m : memory) := load m (csfr_reg_addr + 8).
Definition MMFAR (m : memory) := load m (csfr_reg_addr + 12).
Definition BFAR (m : memory) := load m (csfr_reg_addr + 16).
Definition AFSR (m : memory) := load m (csfr_reg_addr + 20).
Definition SFSR (m : memory) := load m sfsr_reg_addr.
Definition SFAR (m : memory) := load m (sfsr_reg_addr + 4).
Definition RFSR (m : memory) := load m rfsr_reg_addr.
Definition IntegritySignature (m : memory) := load m IntegritySignature_addr.
End Field.

(** ** Fault information definitions *)

Definition ARM_FAULT_MAGIC_NUMBER : Z := 0x52746C46.
Definition ARM_FAULT_CRC32_INIT_VAL : Z := 0xFFFFFFFF.
Definition ARM_FAULT_CRC32_POLYNOM : Z := 0x04C11DB7.
Definition ARM_FAULT_ASC_INTEGRITY_SIG : Z := 0xFEFA125A.

(** The byte range sealed by the CRC: from [count] to the end of the record. *)
Definition crc_data_ptr : Z := count_addr.
Definition crc_data_len : Z := sizeof_ARM_FaultInfo - (4 + 4).

(** ** [CalcCRC32] (C) *)

(** One turn of the [for] loop: test the top bit, shift, conditionally xor. *)
Definition crc_bit (polynom crc32 : Z) : Z :=
  if negb (Z.land crc32 0x80000000 =? 0)
  then Z.lxor (wrap32 (Z.shiftl crc32 1)) polynom
  else wrap32 (Z.shiftl crc32 1).

(** The body of the [while] loop on the byte [b = *data_ptr]. *)
Definition crc_byte (polynom crc32 b : Z) : Z :=
  Nat.iter 8 (crc_bit polynom) (Z.lxor crc32 (wrap32 (Z.shiftl b 24))).

Fixpoint CalcCRC32_while (fuel : nat) (m : memory)
         (crc32 data_ptr data_len polynom : Z) : Z :=
  match fuel with
  | O => crc32
  | S fuel' =>
      if data_len =? 0 then crc32
      else CalcCRC32_while fuel' m
             (crc_byte polynom crc32 (load_byte m data_ptr))
             (data_ptr + 1) (wrap32 (data_len - 1)) polynom
  end.

(** [data_len] is a [uint32_t]: [data_len] turns of the loop bring it to 0. *)
Definition CalcCRC32 (m : memory) (init_val data_ptr data_len polynom : Z) : Z :=
  CalcCRC32_while (Z.to_nat data_len) m init_val data_ptr data_len polynom.

(** ** [ARM_FaultClear] and [ARM_FaultOccurred] (C) *)

(** [memset(&ARM_FaultInfo, 0, sizeof(ARM_FaultInfo))] *)
Definition ARM_FaultClear (m : memory) : memory :=
  fun a => if (0 <=? a) && (a <? sizeof_ARM_FaultInfo) then 0 else m a.

Definition ARM_FaultOccurred (m : memory) : Z :=
  let fault_info_valid := 1 in
  let fault_info_valid :=
    if negb (Field.magic_number m =? ARM_FAULT_MAGIC_NUMBER) then 0
    else fault_info_valid in
  if negb (fault_info_valid =? 0) then
    if negb (Field.crc32 m =?
             CalcCRC32 m ARM_FAULT_CRC32_INIT_VAL crc_data_ptr crc_data_len
                       ARM_FAULT_CRC32_POLYNOM)
    then 0 else fault_info_valid
  else fault_info_valid.

(** ** Build configuration

    The macros of [ARM_Fault.h] and of the device header that select the
    variant of the capture routine that is assembled. *)
Record build_config := {
  ARM_FAULT_FAULT_REGS_EXIST : bool;
  ARM_FAULT_ARCH_ARMV8x_M : bool;
  ARM_FAULT_ARCH_ARMV8x_M_MAIN : bool;
  ARM_FAULT_ARCH_ARMV8_M_BASE : bool;
  ARM_FAULT_ARCH_ARMV8_1M_MAIN : bool;
  ARM_FAULT_TZ_ENABLED : bool;
  ARM_FAULT_TZ_SECURE : bool;
  ARM_FAULT_FAULT_INFO_VER_MAJOR : Z;
  ARM_FAULT_FAULT_INFO_VER_MINOR : Z;
  SCB_CFSR_Stack_Err_Msk : Z
}.

(** The System Control Block of the device header (architectural values). *)
Definition SCB_BASE : Z := 0xE000ED00.
Definition SCB_BASE_NS : Z := 0xE002ED00.
Definition cfsr_ofs : Z := 0x28.
Definition hfsr_ofs : Z := 0x2C.
Definition dfsr_ofs : Z := 0x30.
Definition mmfar_ofs : Z := 0x34.
Definition bfar_ofs : Z := 0x38.
Definition afsr_ofs : Z := 0x3C.
Definition sfsr_ofs : Z := 0xE4.
Definition sfar_ofs : Z := 0xE8.
Definition rfsr_ofs : Z := 0x204.
Definition aircr_ofs : Z := 0x0C.
Definition SCB_AIRCR_VECTKEY_Pos : Z := 16.
Definition SCB_AIRCR_SYSRESETREQ_Msk : Z := Z.shiftl 1 2.
Definition SCB_AIRCR_PRIGROUP_Msk : Z := Z.shiftl 7 8.

Definition info_val (cfg : build_config) : Z :=
  Z.lor (Z.lor (Z.lor (Z.lor (Z.lor
    (ARM_FAULT_FAULT_INFO_VER_MINOR cfg)
    (Z.shiftl (ARM_FAULT_FAULT_INFO_VER_MAJOR cfg) 8))
    (Z.shiftl (Z.b2z (ARM_FAULT_FAULT_REGS_EXIST cfg)) 16))
    (Z.shiftl (Z.b2z (ARM_FAULT_ARCH_ARMV8x_M_MAIN cfg)) 17))
    (Z.shiftl (Z.b2z (ARM_FAULT_TZ_ENABLED cfg)) 18))
    (Z.shiftl (Z.b2z (ARM_FAULT_TZ_SECURE cfg)) 19).

Definition info_tz_fault_mode_msk : Z := Z.shiftl 1 20.
Definition info_state_context_msk : Z := Z.shiftl 1 21.
Definition info_limit_regs_msk : Z := Z.shiftl 1 22.
Definition info_fault_regs_msk : Z := Z.shiftl 1 23.
Definition info_secure_fault_regs_msk : Z := Z.shiftl 1 24.
Definition info_ras_fault_reg_msk : Z := Z.shiftl 1 25.

(** ** The machine state of the capture routine *)

Inductive reg := R0 | R1 | R2 | R3 | R4 | R5 | R6 | R7
               | R8 | R9 | R10 | R11 | LR.

(** The banked stack pointers and stack limits read with [mrs].  xPSR is
    not among them: its flags are part of the state below and change with
    every flag-setting instruction. *)
Inductive sreg := MSP | PSP | MSP_NS | PSP_NS
                | MSPLIM | PSPLIM | MSPLIM_NS | PSPLIM_NS.

Definition reg_idx (r : reg) : nat :=
  match r with
  | R0 => 0 | R1 => 1 | R2 => 2 | R3 => 3 | R4 => 4 | R5 => 5 | R6 => 6
  | R7 => 7 | R8 => 8 | R9 => 9 | R10 => 10 | R11 => 11 | LR => 14
  end%nat.

Definition reg_eqb (a b : reg) : bool := Nat.eqb (reg_idx a) (reg_idx b).

(** [log] is the sequence of stores into the record, most recent first: a
    reader of the record sees the states obtained by replaying the stores
    made so far, that is a suffix of the final [log]. *)
Record state := mkState {
  regs : reg -> Z;
  flagN : bool;         (* APSR.N, xPSR bit 31 *)
  flagZ : bool;         (* APSR.Z, xPSR bit 30 *)
  flagC : bool;         (* APSR.C, xPSR bit 29 *)
  flagV : bool;         (* APSR.V, xPSR bit 28 *)
  psr : Z;              (* the other bits of xPSR: Q, GE, EPSR, IPSR *)
  sregs : sreg -> Z;
  fi : memory;          (* ARM_FaultInfo *)
  bus : memory;         (* stack memory and memory-mapped registers *)
  log : list (Z * Z)
}.

Definition get (r : reg) (s : state) : Z := regs s r.

Definition set (r : reg) (v : Z) (s : state) : state :=
  mkState (fun x => if reg_eqb x r then v else regs s x)
          (flagN s) (flagZ s) (flagC s) (flagV s) (psr s) (sregs s)
          (fi s) (bus s) (log s).

(** The flags a data-processing instruction updates: N and Z for moves and
    logical operations, N, Z and C for shifts, all four for arithmetic. *)
Definition set_NZ (n z : bool) (s : state) : state :=
  mkState (regs s) n z (flagC s) (flagV s) (psr s) (sregs s)
          (fi s) (bus s) (log s).

Definition set_NZC (n z c : bool) (s : state) : state :=
  mkState (regs s) n z c (flagV s) (psr s) (sregs s) (fi s) (bus s) (log s).

Definition set_NZCV (n z c v : bool) (s : state) : state :=
  mkState (regs s) n z c v (psr s) (sregs s) (fi s) (bus s) (log s).

Definition write_fi (a v : Z) (s : state) : state :=
  mkState (regs s) (flagN s) (flagZ s) (flagC s) (flagV s) (psr s) (sregs s)
          (store a v (fi s)) (bus s) ((a, v) :: log s).

(** Signed overflow of the 32-bit addition and subtraction. *)
Definition add_overflow (v w : Z) : bool :=
  negb (xorb (Z.testbit v 31) (Z.testbit w 31)) &&
  xorb (Z.testbit v 31) (Z.testbit (wrap32 (v + w)) 31).

Definition sub_overflow (v w : Z) : bool :=
  xorb (Z.testbit v 31) (Z.testbit w 31) &&
  xorb (Z.testbit v 31) (Z.testbit (wrap32 (v - w)) 31).

(** xPSR as [mrs] returns it: the four flags in bits 31 .. 28; of the other
    bits, Q (27), GE (19 .. 16) and the exception number (8 .. 0); the
    execution-state bits (EPSR) read as zero. *)
Definition apsr_nzcv (n z c v : bool) : Z :=
  Z.lor (Z.lor (Z.lor (Z.shiftl (Z.b2z n) 31) (Z.shiftl (Z.b2z z) 30))
               (Z.shiftl (Z.b2z c) 29))
        (Z.shiftl (Z.b2z v) 28).

Definition xpsr_mrs_msk : Z := 0x080F01FF.

Definition xpsr_read (s : state) : Z :=
  Z.lor (apsr_nzcv (flagN s) (flagZ s) (flagC s) (flagV s))
        (Z.land (psr s) xpsr_mrs_msk).

(** Replaying a sequence of stores (most recent first) on a record. *)
Definition replay (l : list (Z * Z)) (m : memory) : memory :=
  fold_right (fun e m' => store (fst e) (snd e) m') m l.

(** ** Thumb instructions *)

Definition instr := state -> state.

Definition seq (i j : instr) : instr := fun s => j (i s).
Notation "i ;; j" := (seq i j) (at level 61, left associativity).

Definition nop : instr := fun s => s.

(** [movs rd, #imm]: N and Z from the result, C and V unchanged. *)
Definition movs (rd : reg) (imm : Z) : instr :=
  fun s => set_NZ (Z.testbit imm 31) (imm =? 0) (set rd imm s).

(** [mov rd, rm]: no flags. *)
Definition mov (rd rm : reg) : instr :=
  fun s => set rd (get rm s) s.

(** [ldr rd, =imm]: literal load, no flags. *)
Definition ldr_lit (rd : reg) (imm : Z) : instr :=
  fun s => set rd imm s.

(** [mrs rd, spec_reg] *)
Definition mrs (rd : reg) (sr : sreg) : instr :=
  fun s => set rd (sregs s sr) s.

(** [mrs rd, xpsr]: the flags as the instructions before it left them. *)
Definition mrs_xpsr (rd : reg) : instr :=
  fun s => set rd (xpsr_read s) s.

(** [lsrs rd, rm, #n]: the last bit shifted out goes to C, V unchanged. *)
Definition lsrs (rd rm : reg) (n : Z) : instr :=
  fun s => let v := get rm s in
           let r := Z.shiftr v n in
           set_NZC (Z.testbit r 31) (r =? 0) (Z.testbit v (n - 1)) (set rd r s).

(** [lsls rd, rm, #n] *)
Definition lsls (rd rm : reg) (n : Z) : instr :=
  fun s => let v := get rm s in
           let r := wrap32 (Z.shiftl v n) in
           set_NZC (Z.testbit r 31) (r =? 0) (Z.testbit v (32 - n))
                   (set rd r s).

(** [adds rd, rn, #imm] *)
Definition adds (rd rn : reg) (imm : Z) : instr :=
  fun s => let v := get rn s in
           let r := wrap32 (v + imm) in
           set_NZCV (Z.testbit r 31) (r =? 0) (2 ^ 32 <=? v + imm)
                    (add_overflow v imm) (set rd r s).

(** [subs rd, rn, #imm]: C is the inverted borrow. *)
Definition subs (rd rn : reg) (imm : Z) : instr :=
  fun s => let v := get rn s in
           let r := wrap32 (v - imm) in
           set_NZCV (Z.testbit r 31) (r =? 0) (imm <=? v)
                    (sub_overflow v imm) (set rd r s).

(** [cmp rn, #imm]: the flags of [subs], no result. *)
Definition cmp_imm (rn : reg) (imm : Z) : instr :=
  fun s => let v := get rn s in
           let r := wrap32 (v - imm) in
           set_NZCV (Z.testbit r 31) (r =? 0) (imm <=? v)
                    (sub_overflow v imm) s.

(** [cmp rn, rm] *)
Definition cmp (rn rm : reg) : instr :=
  fun s => let v := get rn s in
           let w := get rm s in
           let r := wrap32 (v - w) in
           set_NZCV (Z.testbit r 31) (r =? 0) (w <=? v) (sub_overflow v w) s.

(** [orrs rd, rm], [ands rd, rm], [eors rd, rn, rm]: N and Z from the
    result, C and V unchanged. *)
Definition orrs (rd rm : reg) : instr :=
  fun s => let r := Z.lor (get rd s) (get rm s) in
           set_NZ (Z.testbit r 31) (r =? 0) (set rd r s).

Definition ands (rd rm : reg) : instr :=
  fun s => let r := Z.land (get rd s) (get rm s) in
           set_NZ (Z.testbit r 31) (r =? 0) (set rd r s).

Definition eors (rd rn rm : reg) : instr :=
  fun s => let r := Z.lxor (get rn s) (get rm s) in
           set_NZ (Z.testbit r 31) (r =? 0) (set rd r s).

(** Loads and stores on the record. *)
Definition ldr_fi (rt rn : reg) (ofs : Z) : instr :=
  fun s => set rt (load (fi s) (get rn s + ofs)) s.

Definition ldrb_fi (rt rn : reg) (ofs : Z) : instr :=
  fun s => set rt (load_byte (fi s) (get rn s + ofs)) s.

Definition str_fi (rt rn : reg) : instr :=
  fun s => write_fi (get rn s) (get rt s) s.

(** [stm rn!, {...}]: ascending stores, then write-back of the base. *)
Fixpoint stm_fi (rn : reg) (rl : list reg) : instr :=
  match rl with
  | [] => nop
  | r :: rl' =>
      fun s => stm_fi rn rl'
                 (set rn (get rn s + 4) (write_fi (get rn s) (get r s) s))
  end.

(** [ldm rn!, {...}] on the record. *)
Fixpoint ldm_fi (rn : reg) (rl : list reg) : instr :=
  match rl with
  | [] => nop
  | r :: rl' =>
      fun s => ldm_fi rn rl'
                 (set rn (get rn s + 4) (set r (load (fi s) (get rn s)) s))
  end.

(** Loads through the bus: the stacked frame and the System Control Block. *)
Definition ldr_bus (rt rn : reg) (ofs : Z) : instr :=
  fun s => set rt (load (bus s) (get rn s + ofs)) s.

Fixpoint ldm_bus (rn : reg) (rl : list reg) : instr :=
  match rl with
  | [] => nop
  | r :: rl' =>
      fun s => ldm_bus rn rl'
                 (set rn (get rn s + 4) (set r (load (bus s) (get rn s)) s))
  end.

(** A store through the bus (the reset request of [ARM_FaultExit]). *)
Definition str_bus (rt rn : reg) : instr :=
  fun s => mkState (regs s) (flagN s) (flagZ s) (flagC s) (flagV s) (psr s)
                   (sregs s) (fi s)
                   (store (get rn s) (get rt s) (bus s)) (log s).

(** [dsb] orders the accesses; it changes nothing in this state. *)
Definition dsb : instr := nop.

(** Conditional branches: the continuation at the target if the branch is
    taken, the one that follows otherwise. *)
Definition bcc (target next : instr) : instr :=
  fun s => if flagC s then next s else target s.
Definition bcs (target next : instr) : instr :=
  fun s => if flagC s then target s else next s.
Definition bne (target next : instr) : instr :=
  fun s => if flagZ s then next s else target s.
Definition beq (target next : instr) : instr :=
  fun s => if flagZ s then target s else next s.

(** A loop of the assembly whose trip count is held in register [r]: the
    bound on the number of turns is the value of [r] at the loop's entry. *)
Definition with_fuel (r : reg) (loop : nat -> instr) : instr :=
  fun s => loop (Z.to_nat (get r s)) s.

(** OR a mask into [ARM_FaultInfo.info]. *)
Definition set_info_bit (msk : Z) : instr :=
  ldr_lit R0 info_addr ;;
  ldr_fi R1 R0 0 ;;
  ldr_lit R2 msk ;;
  orrs R1 R2 ;;
  str_fi R1 R0.

(** ** [ARM_FaultSave], first [__ASM] block *)

Section CAPTURE.

Variable cfg : build_config.

(** --- Read current ARM_FaultInfo.count value --- *)
Definition read_count : instr :=
  ldr_lit R2 count_addr ;;
  ldr_fi R3 R2 0.

(** --- Clear ARM_FaultInfo structure --- *)
Definition clear_uint32 : instr :=
  stm_fi R1 [R0] ;;
  subs R2 R2 1.

Fixpoint is_clear_done (fuel : nat) : instr :=
  match fuel with
  | O => nop
  | S fuel' => bne (clear_uint32 ;; is_clear_done fuel') nop
  end.

Definition clear_ARM_FaultInfo : instr :=
  movs R0 0 ;;
  ldr_lit R1 0 ;;                            (* R1 = &ARM_FaultInfo *)
  movs R2 (sizeof_ARM_FaultInfo / 4) ;;
  with_fuel R2 is_clear_done.

(** --- Increment and store new ARM_FaultInfo.count value --- *)
Definition store_count : instr :=
  ldr_lit R2 count_addr ;;
  adds R3 R3 1 ;;
  stm_fi R2 [R3].

(** --- Store ARM_FaultInfo.info: version and compile-time content --- *)
Definition store_info : instr :=
  ldr_lit R0 (info_val cfg) ;;
  str_fi R0 R2.

(** --- Store current values of registers R4 .. R11 --- *)
Definition store_r4_r11 : instr :=
  ldr_lit R2 r4_addr ;;
  stm_fi R2 [R4; R5; R6; R7] ;;
  mov R4 R8 ;;
  mov R5 R9 ;;
  mov R6 R10 ;;
  mov R7 R11 ;;
  stm_fi R2 [R4; R5; R6; R7].

(** --- Determine stack used, and Secure or Non-Secure registers used --- *)
Definition load_psp_ns : instr := mrs R6 PSP_NS ;; movs R7 1.
Definition load_psp : instr := mrs R6 PSP.
Definition load_msp_ns : instr := mrs R6 MSP_NS ;; movs R7 1.
Definition load_msp : instr := mrs R6 MSP.

Definition psp_used : instr :=
  if ARM_FAULT_TZ_SECURE cfg
  then mov R0 LR ;; lsrs R0 R0 7 ;; bcs load_psp load_psp_ns
  else load_psp.

Definition msp_used : instr :=
  if ARM_FAULT_TZ_SECURE cfg
  then mov R0 LR ;; lsrs R0 R0 7 ;; bcs load_msp load_msp_ns
  else load_msp.

Definition r6_points_to_stack : instr :=
  movs R6 0 ;;
  movs R7 0 ;;
  mov R0 LR ;;
  lsrs R0 R0 3 ;;
  bcc msp_used psp_used.

(** Set ARM_FaultInfo.info.content.tz_fault_mode to 1 if the fault happened
    in the Secure World *)
Definition set_tz_fault_mode : instr := set_info_bit info_tz_fault_mode_msk.

Definition tz_fault_mode : instr :=
  if ARM_FAULT_TZ_SECURE cfg
  then lsrs R4 R7 1 ;; bcs nop set_tz_fault_mode
  else nop.

(** --- Determine stack validity --- *)
Definition stack_pointer_is_zero : instr := movs R3 2 ;; orrs R7 R3.
Definition stack_info_is_invalid : instr := movs R3 2 ;; orrs R7 R3.

Definition load_cfsr_ns_addr : instr := ldr_lit R2 (SCB_BASE_NS + cfsr_ofs).
Definition load_cfsr_addr : instr := ldr_lit R2 (SCB_BASE + cfsr_ofs).

Definition load_cfsr_val : instr :=
  ldr_bus R0 R2 0 ;;
  ldr_lit R1 (SCB_CFSR_Stack_Err_Msk cfg) ;;
  ands R0 R1 ;;
  beq nop stack_info_is_invalid.

Definition check_CFSR : instr :=
  if ARM_FAULT_FAULT_REGS_EXIST cfg
  then (if ARM_FAULT_TZ_SECURE cfg
        then lsrs R0 R7 1 ;; bcc load_cfsr_addr load_cfsr_ns_addr
        else load_cfsr_addr) ;;
       load_cfsr_val
  else nop.

Definition stack_check : instr :=
  cmp_imm R6 0 ;;
  bne check_CFSR stack_pointer_is_zero.

(** --- Store stacked context into ARM_FaultInfo --- *)
Definition copy_additional_context : instr :=
  ldr_lit R5 IntegritySignature_addr ;;
  ldm_bus R6 [R0; R1] ;;
  str_fi R0 R5 ;;
  ldr_lit R5 r4_addr ;;
  ldm_bus R6 [R0; R1; R2; R3] ;;
  stm_fi R5 [R0; R1; R2; R3] ;;
  ldm_bus R6 [R0; R1; R2; R3] ;;
  stm_fi R5 [R0; R1; R2; R3].

Definition additional_context : instr :=
  if ARM_FAULT_ARCH_ARMV8x_M cfg
  then mov R0 LR ;; lsrs R0 R0 6 ;; bcs nop copy_additional_context
  else nop.

Definition copy_state_context : instr :=
  ldr_lit R5 r0_addr ;;
  ldm_bus R6 [R0; R1; R2; R3] ;;
  stm_fi R5 [R0; R1; R2; R3] ;;
  ldr_lit R5 r12_addr ;;
  ldm_bus R6 [R0; R1; R2; R3] ;;
  stm_fi R5 [R0; R1; R2; R3] ;;
  set_info_bit info_state_context_msk.

Definition state_context : instr :=
  lsrs R0 R7 2 ;;
  bcs nop (additional_context ;; copy_state_context).

(** --- Store EXC_xPSR, EXC_RETURN, MSP, PSP into ARM_FaultInfo --- *)
Definition load_sps_ns : instr := mrs R2 MSP_NS ;; mrs R3 PSP_NS.
Definition load_sps : instr := mrs R2 MSP ;; mrs R3 PSP.

Definition store_regs : instr :=
  ldr_lit R5 EXC_xPSR_addr ;;
  stm_fi R5 [R0; R1; R2; R3].

Definition exc_context : instr :=
  mrs_xpsr R0 ;;
  mov R1 LR ;;
  (if ARM_FAULT_TZ_SECURE cfg
   then lsrs R4 R7 1 ;; bcc load_sps load_sps_ns
   else load_sps) ;;
  store_regs.

(** --- Store MSPLIM and PSPLIM (if they are available) --- *)
Definition load_splims_ns : instr := mrs R0 MSPLIM_NS ;; mrs R1 PSPLIM_NS.
Definition load_splims : instr := mrs R0 MSPLIM ;; mrs R1 PSPLIM.

Definition store_splims : instr :=
  stm_fi R5 [R0; R1] ;;
  set_info_bit info_limit_regs_msk.

Definition splims : instr :=
  if ARM_FAULT_ARCH_ARMV8x_M cfg
  then
    if ARM_FAULT_TZ_SECURE cfg
    then lsrs R4 R7 1 ;;
         bcc (load_splims ;; store_splims)
             (if ARM_FAULT_ARCH_ARMV8_M_BASE cfg
              then nop                                   (* b splims_end *)
              else load_splims_ns ;; store_splims)
    else load_splims ;; store_splims
  else nop.

Definition asm_block_1 : instr :=
  read_count ;;
  clear_ARM_FaultInfo ;;
  store_count ;;
  store_info ;;
  store_r4_r11 ;;
  r6_points_to_stack ;;
  tz_fault_mode ;;
  stack_check ;;
  state_context ;;
  exc_context ;;
  splims.

(** ** Second [__ASM] block: fault registers *)

Definition load_scb_ns_addr : instr := ldr_lit R4 SCB_BASE_NS.
Definition load_scb_addr : instr := ldr_lit R4 SCB_BASE.

Definition rfsr : instr :=
  if ARM_FAULT_ARCH_ARMV8_1M_MAIN cfg
  then ldr_lit R5 rfsr_reg_addr ;;
       ldr_bus R0 R4 rfsr_ofs ;;
       str_fi R0 R5 ;;
       set_info_bit info_ras_fault_reg_msk
  else nop.

Definition secure_fault_regs : instr :=
  if ARM_FAULT_ARCH_ARMV8x_M_MAIN cfg
  then
    if ARM_FAULT_TZ_SECURE cfg
    then ldr_lit R5 sfsr_reg_addr ;;
         ldr_lit R4 SCB_BASE ;;
         ldr_bus R0 R4 sfsr_ofs ;;
         ldr_bus R1 R4 sfar_ofs ;;
         stm_fi R5 [R0; R1] ;;
         set_info_bit info_secure_fault_regs_msk
    else nop
  else nop.

Definition load_fault_regs : instr :=
  ldr_lit R5 csfr_reg_addr ;;
  ldr_bus R0 R4 cfsr_ofs ;;
  ldr_bus R1 R4 hfsr_ofs ;;
  ldr_bus R2 R4 dfsr_ofs ;;
  ldr_bus R3 R4 mmfar_ofs ;;
  stm_fi R5 [R0; R1; R2; R3] ;;
  ldr_bus R0 R4 bfar_ofs ;;
  ldr_bus R1 R4 afsr_ofs ;;
  stm_fi R5 [R0; R1] ;;
  set_info_bit info_fault_regs_msk ;;
  rfsr ;;
  secure_fault_regs.

Definition asm_block_2 : instr :=
  if ARM_FAULT_FAULT_REGS_EXIST cfg
  then (if ARM_FAULT_TZ_SECURE cfg
        then lsrs R4 R7 1 ;; bcc load_scb_addr load_scb_ns_addr
        else load_scb_addr) ;;
       load_fault_regs
  else nop.

(** ** Third [__ASM] block: seal, restore, leave *)

(** The bit loop [crc_floop .. bne crc_floop] (a do-while on R4). *)
Fixpoint crc_floop (fuel : nat) : instr :=
  lsls R0 R0 1 ;;
  bcc nop (eors R0 R0 R3) ;;
  (* crc_next: *)
  subs R4 R4 1 ;;
  match fuel with
  | O => nop
  | S fuel' => bne (crc_floop fuel') nop
  end.

Definition crc_wloop : instr :=
  ldrb_fi R5 R1 0 ;;
  lsls R5 R5 24 ;;
  eors R0 R0 R5 ;;
  movs R4 8 ;;
  with_fuel R4 crc_floop ;;
  adds R1 R1 1 ;;
  subs R2 R2 1.

Fixpoint crc_check (fuel : nat) : instr :=
  cmp_imm R2 0 ;;
  match fuel with
  | O => nop
  | S fuel' => bne (crc_wloop ;; crc_check fuel') nop
  end.

(** Calculate CRC-32 with result provided in R0 register; the four
    parameters are the [%c[crc_...]] operands of the block. *)
Definition crc32_asm (init_val data_ptr data_len polynom : Z) : instr :=
  ldr_lit R0 init_val ;;
  ldr_lit R1 data_ptr ;;
  ldr_lit R2 data_len ;;
  ldr_lit R3 polynom ;;
  with_fuel R2 crc_check.

Definition calc_crc32 : instr :=
  crc32_asm ARM_FAULT_CRC32_INIT_VAL crc_data_ptr crc_data_len
            ARM_FAULT_CRC32_POLYNOM.

Definition store_crc32 : instr :=
  ldr_lit R2 crc32_addr ;;
  str_fi R0 R2.

(** --- Store ARM_FaultInfo.magic_number --- *)
Definition store_magic_number : instr :=
  ldr_lit R2 magic_number_addr ;;
  ldr_lit R0 ARM_FAULT_MAGIC_NUMBER ;;
  str_fi R0 R2.

(** Restore registers R4 .. R7; clear them if the integrity signature of an
    additional state context was stored. *)
Definition restored_r4_to_r7 : instr :=
  ldr_lit R0 r4_addr ;;
  ldm_fi R0 [R4; R5; R6; R7] ;;
  if ARM_FAULT_ARCH_ARMV8x_M cfg
  then ldr_lit R0 IntegritySignature_addr ;;
       ldr_lit R1 ARM_FAULT_ASC_INTEGRITY_SIG ;;
       ldr_fi R2 R0 0 ;;
       cmp R2 R1 ;;
       bne nop (movs R4 0 ;; movs R5 0 ;; movs R6 0 ;; movs R7 0)
  else nop.

Definition asm_block_3 : instr :=
  calc_crc32 ;;
  store_crc32 ;;
  store_magic_number ;;
  dsb ;;
  restored_r4_to_r7.

(** The whole routine, up to the jump to [ARM_FaultExit]. *)
Definition ARM_FaultSave : instr :=
  asm_block_1 ;; asm_block_2 ;; asm_block_3.

(** ** [ARM_FaultExit], default implementation

    The routine ends in [b .], waiting for the reset: the state below is the
    one in which that loop is entered. *)
Definition aircr_addr : Z := SCB_BASE + aircr_ofs.
Definition aircr_val : Z :=
  Z.lor (Z.shiftl 0x5FA SCB_AIRCR_VECTKEY_Pos) SCB_AIRCR_SYSRESETREQ_Msk.
Definition aircr_msk : Z := SCB_AIRCR_PRIGROUP_Msk.

Definition ARM_FaultExit : instr :=
  dsb ;;
  ldr_lit R0 aircr_addr ;;
  ldr_lit R1 aircr_val ;;
  (if ARM_FAULT_FAULT_REGS_EXIST cfg
   then ldr_lit R2 aircr_msk ;;
        ldr_bus R3 R0 0 ;;
        ands R3 R2 ;;
        orrs R1 R3
   else nop) ;;
  str_bus R1 R0 ;;
  dsb.

End CAPTURE.

(** ** Objects of the statements *)

(** Bit [b] of the word at offset [a] of the record, inverted. *)
Definition flip_bit (a b : Z) (m : memory) : memory :=
  store a (Z.lxor (load m a) (Z.shiftl 1 b)) m.

(** An all-zero record sealed by hand: its payload is 136 zero bytes. *)
Definition sealed_blank : memory :=
  store magic_number_addr ARM_FAULT_MAGIC_NUMBER
    (store crc32_addr
       (CalcCRC32 (fun _ => 0) ARM_FAULT_CRC32_INIT_VAL crc_data_ptr
                  crc_data_len ARM_FAULT_CRC32_POLYNOM)
       (fun _ => 0)).

(** The same record with the lowest bit of [count] inverted: a record state
    that holds the magic number and a checksum that does not match. *)
Definition tampered_record : memory := flip_bit count_addr 0 sealed_blank.

(** ** What the capture routine decides and stores, as functions of its
       entry state *)

Section CAPTURE_SUMMARY.

Variable cfg : build_config.

(** The Non-Secure aliases are used: Secure build, fault taken from the
    Non-Secure state (EXC_RETURN.S = 0). *)
Definition ns_alias (s : state) : bool :=
  ARM_FAULT_TZ_SECURE cfg && negb (Z.testbit (get LR s) 6).

(** The stack pointer EXC_RETURN.SPSEL and the security state select. *)
Definition stacked_sp_reg (s : state) : sreg :=
  if Z.testbit (get LR s) 2
  then (if ns_alias s then PSP_NS else PSP)
  else (if ns_alias s then MSP_NS else MSP).

Definition stacked_sp (s : state) : Z := sregs s (stacked_sp_reg s).

(** The System Control Block the fault registers are read from. *)
Definition scb_base (s : state) : Z :=
  if ns_alias s then SCB_BASE_NS else SCB_BASE.

(** The test of the stack-validity section. *)
Definition stack_invalid_b (s : state) : bool :=
  (wrap32 (stacked_sp s - 0) =? 0) ||
  (ARM_FAULT_FAULT_REGS_EXIST cfg &&
   negb (Z.land (load (bus s) (scb_base s + cfsr_ofs))
                (SCB_CFSR_Stack_Err_Msk cfg) =? 0)).

(** The stores of the wipe: 36 words, from offset 0 upwards. *)
Definition wipe_writes : list (Z * Z) :=
  map (fun i => (4 * Z.of_nat i, 0)) (rev (List.seq 0 36)).

(** The stores that follow the wipe, up to the saving of R4 .. R11: the
    new [count], the build-time [info], the live R4 .. R11. *)
Definition early_writes (s : state) : list (Z * Z) :=
  [ (r4_addr + 28, get R11 s); (r4_addr + 24, get R10 s);
    (r4_addr + 20, get R9 s); (r4_addr + 16, get R8 s);
    (r4_addr + 12, get R7 s); (r4_addr + 8, get R6 s);
    (r4_addr + 4, get R5 s); (r4_addr, get R4 s);
    (info_addr, info_val cfg);
    (count_addr, wrap32 (load (fi s) count_addr + 1)) ].

(** Stores up to and including the saving of R4 .. R11. *)
Definition entry_writes (s : state) : list (Z * Z) :=
  early_writes s ++ wipe_writes.

(** The store of the [tz_fault_mode] section, on the current [info]. *)
Definition tz_writes (ns : bool) (info : Z) : list (Z * Z) :=
  if ARM_FAULT_TZ_SECURE cfg && negb ns
  then [(info_addr, Z.lor info info_tz_fault_mode_msk)]
  else [].

(** R7 after the stack-validity section: bit 0 for the Non-Secure aliases,
    bit 1 for an invalid stack. *)
Definition r7_flags (ns inv : bool) : Z :=
  if inv then Z.lor (Z.b2z ns) 2 else Z.b2z ns.

(** The [k]-th word above [a], as [ldm] reaches it by write-back. *)
Fixpoint word_after (a : Z) (k : nat) : Z :=
  match k with
  | O => a
  | S k' => word_after (a + 4) k'
  end.

(** An additional state context was stacked (EXC_RETURN.DCRS = 0). *)
Definition additional_pushed (lr : Z) : bool :=
  ARM_FAULT_ARCH_ARMV8x_M cfg && negb (Z.testbit lr 5).

(** Integrity signature, reserved word, R4 .. R11 at [sp]. *)
Definition additional_writes (b : memory) (sp : Z) : list (Z * Z) :=
  [ (r4_addr + 28, load b (word_after sp 9));
    (r4_addr + 24, load b (word_after sp 8));
    (r4_addr + 20, load b (word_after sp 7));
    (r4_addr + 16, load b (word_after sp 6));
    (r4_addr + 12, load b (word_after sp 5));
    (r4_addr + 8, load b (word_after sp 4));
    (r4_addr + 4, load b (word_after sp 3));
    (r4_addr, load b (word_after sp 2));
    (IntegritySignature_addr, load b sp) ].

(** The basic frame R0 .. R3, R12, LR, ReturnAddress, xPSR at [fp], then the
    state-context flag. *)
Definition basic_writes (b : memory) (fp info : Z) : list (Z * Z) :=
  [ (info_addr, Z.lor info info_state_context_msk);
    (r12_addr + 12, load b (word_after fp 7));
    (r12_addr + 8, load b (word_after fp 6));
    (r12_addr + 4, load b (word_after fp 5));
    (r12_addr, load b (word_after fp 4));
    (r0_addr + 12, load b (word_after fp 3));
    (r0_addr + 8, load b (word_after fp 2));
    (r0_addr + 4, load b (word_after fp 1));
    (r0_addr, load b fp) ].

Definition ctx_writes (inv : bool) (lr : Z) (b : memory) (sp info : Z)
  : list (Z * Z) :=
  if inv then []
  else if additional_pushed lr
       then basic_writes b (word_after sp 10) info ++ additional_writes b sp
       else basic_writes b sp info.

(** EXC_xPSR (the value [xpsr] that [mrs] read), EXC_RETURN, MSP, PSP. *)
Definition exc_writes (ns : bool) (lr : Z) (sr : sreg -> Z) (xpsr : Z)
  : list (Z * Z) :=
  [ (EXC_xPSR_addr + 12, sr (if ns then PSP_NS else PSP));
    (EXC_xPSR_addr + 8, sr (if ns then MSP_NS else MSP));
    (EXC_xPSR_addr + 4, lr);
    (EXC_xPSR_addr, xpsr) ].

(** The limit registers are stored: they exist, and on Armv8-M Baseline
    only for the Secure state. *)
Definition limits_stored (ns : bool) : bool :=
  ARM_FAULT_ARCH_ARMV8x_M cfg && negb (ns && ARM_FAULT_ARCH_ARMV8_M_BASE cfg).

Definition lim_writes (ns : bool) (sr : sreg -> Z) (info : Z)
  : list (Z * Z) :=
  if limits_stored ns
  then [ (info_addr, Z.lor info info_limit_regs_msk);
         (EXC_xPSR_addr + 20, sr (if ns then PSPLIM_NS else PSPLIM));
         (EXC_xPSR_addr + 16, sr (if ns then MSPLIM_NS else MSPLIM)) ]
  else [].

(** The second block: CFSR .. AFSR, then RFSR, then SFSR and SFAR. *)
Definition core_fault_writes (b : memory) (base info : Z) : list (Z * Z) :=
  [ (info_addr, Z.lor info info_fault_regs_msk);
    (csfr_reg_addr + 20, load b (base + afsr_ofs));
    (csfr_reg_addr + 16, load b (base + bfar_ofs));
    (csfr_reg_addr + 12, load b (base + mmfar_ofs));
    (csfr_reg_addr + 8, load b (base + dfsr_ofs));
    (csfr_reg_addr + 4, load b (base + hfsr_ofs));
    (csfr_reg_addr, load b (base + cfsr_ofs)) ].

Definition ras_writes (b : memory) (base info : Z) : list (Z * Z) :=
  if ARM_FAULT_ARCH_ARMV8_1M_MAIN cfg
  then [ (info_addr, Z.lor info info_ras_fault_reg_msk);
         (rfsr_reg_addr, load b (base + rfsr_ofs)) ]
  else [].

Definition secure_writes (b : memory) (info : Z) : list (Z * Z) :=
  if ARM_FAULT_ARCH_ARMV8x_M_MAIN cfg && ARM_FAULT_TZ_SECURE cfg
  then [ (info_addr, Z.lor info info_secure_fault_regs_msk);
         (sfsr_reg_addr + 4, load b (SCB_BASE + sfar_ofs));
         (sfsr_reg_addr, load b (SCB_BASE + sfsr_ofs)) ]
  else [].

Definition info_after_core (info : Z) : Z := Z.lor info info_fault_regs_msk.

Definition info_after_ras (info : Z) : Z :=
  if ARM_FAULT_ARCH_ARMV8_1M_MAIN cfg
  then Z.lor (info_after_core info) info_ras_fault_reg_msk
  else info_after_core info.

Definition fault_writes (ns : bool) (b : memory) (info : Z) : list (Z * Z) :=
  if ARM_FAULT_FAULT_REGS_EXIST cfg
  then secure_writes b (info_after_ras info) ++
       ras_writes b (if ns then SCB_BASE_NS else SCB_BASE)
                  (info_after_core info) ++
       core_fault_writes b (if ns then SCB_BASE_NS else SCB_BASE) info
  else [].

(** The seal: the checksum of the record as it stands, then the magic
    number. *)
Definition seal_writes (m : memory) : list (Z * Z) :=
  [ (magic_number_addr, ARM_FAULT_MAGIC_NUMBER);
    (crc32_addr,
     CalcCRC32 m ARM_FAULT_CRC32_INIT_VAL crc_data_ptr crc_data_len
               ARM_FAULT_CRC32_POLYNOM) ].

(** [info] as it stands after each section. *)
Definition info_after_tz (s : state) : Z :=
  if ARM_FAULT_TZ_SECURE cfg && negb (ns_alias s)
  then Z.lor (info_val cfg) info_tz_fault_mode_msk
  else info_val cfg.

Definition info_after_ctx (s : state) : Z :=
  if stack_invalid_b s then info_after_tz s
  else Z.lor (info_after_tz s) info_state_context_msk.

Definition info_after_lim (s : state) : Z :=
  if limits_stored (ns_alias s)
  then Z.lor (info_after_ctx s) info_limit_regs_msk
  else info_after_ctx s.

(** The flags N, Z, C, V as [mrs r0, xpsr] finds them.  With an unusable
    stack they are those of [lsrs r0, r7, #2], which shifted the set bit 1 of
    R7 into C and left zero.  Otherwise N and Z are those of the [orrs] that
    set the state-context flag of [info], and C is the bit shifted out
    last: bit 1 of R7 (clear), or EXC_RETURN.DCRS where the additional
    state context is looked for.  V is that of [cmp r6, #0]. *)
Definition flags_at_mrs (s : state) : Z :=
  if stack_invalid_b s then apsr_nzcv false true true false
  else apsr_nzcv
         (Z.testbit (Z.lor (info_after_tz s) info_state_context_msk) 31)
         (Z.lor (info_after_tz s) info_state_context_msk =? 0)
         (ARM_FAULT_ARCH_ARMV8x_M cfg && Z.testbit (get LR s) 5)
         false.

(** xPSR as the routine reads and stores it. *)
Definition captured_xpsr (s : state) : Z :=
  Z.lor (flags_at_mrs s) (Z.land (psr s) xpsr_mrs_msk).

(** All the stores of the routine before the seal, most recent first. *)
Definition body_writes (s : state) : list (Z * Z) :=
  fault_writes (ns_alias s) (bus s) (info_after_lim s) ++
  lim_writes (ns_alias s) (sregs s) (info_after_ctx s) ++
  exc_writes (ns_alias s) (get LR s) (sregs s) (captured_xpsr s) ++
  ctx_writes (stack_invalid_b s) (get LR s) (bus s) (stacked_sp s)
             (info_after_tz s) ++
  tz_writes (ns_alias s) (info_val cfg) ++
  entry_writes s.

(** All the stores of the routine. *)
Definition capture_writes (s : state) : list (Z * Z) :=
  seal_writes (replay (body_writes s) (fi s)) ++ body_writes s.

End CAPTURE_SUMMARY.

(** [t] is [s] after the stores [W]: only the record and the scratch
    registers R0 .. R7 and the flags N, Z, C, V may differ. *)
Definition extends (s t : state) (W : list (Z * Z)) : Prop :=
  log t = W ++ log s /\
  fi t = replay W (fi s) /\
  bus t = bus s /\
  sregs t = sregs s /\
  get LR t = get LR s /\
  get R8 t = get R8 s /\ get R9 t = get R9 s /\
  get R10 t = get R10 s /\ get R11 t = get R11 s /\
  psr t = psr s.

(** The first sections of the routine, up to the saving of R4 .. R11. *)
Definition entry_section (cfg : build_config) : instr :=
  read_count ;; clear_ARM_FaultInfo ;; store_count ;; store_info cfg ;;
  store_r4_r11.

(** [s'] is [s] up to the flags and the registers [rs]. *)
Definition agree_except (rs : list reg) (s s' : state) : Prop :=
  fi s' = fi s /\ log s' = log s /\ bus s' = bus s /\ sregs s' = sregs s /\
  psr s' = psr s /\
  forall r, ~ In r rs -> get r s' = get r s.

(** The stores of [body_writes] that follow the wipe and the entry
    sections. *)
Definition late_writes (cfg : build_config) (s : state) : list (Z * Z) :=
  fault_writes cfg (ns_alias cfg s) (bus s) (info_after_lim cfg s) ++
  lim_writes cfg (ns_alias cfg s) (sregs s) (info_after_ctx cfg s) ++
  exc_writes (ns_alias cfg s) (get LR s) (sregs s) (captured_xpsr cfg s) ++
  ctx_writes cfg (stack_invalid_b cfg s) (get LR s) (bus s)
             (stacked_sp cfg s) (info_after_tz cfg s) ++
  tz_writes cfg (ns_alias cfg s) (info_val cfg).

(** [info] at the end of the routine. *)
Definition info_after_fault (cfg : build_config) (s : state) : Z :=
  if ARM_FAULT_FAULT_REGS_EXIST cfg
  then if ARM_FAULT_ARCH_ARMV8x_M_MAIN cfg && ARM_FAULT_TZ_SECURE cfg
       then Z.lor (info_after_ras cfg (info_after_lim cfg s))
                  info_secure_fault_regs_msk
       else info_after_ras cfg (info_after_lim cfg s)
  else info_after_lim cfg s.

(** The version fields fit their 8 bits of [info]. *)
Definition version_ok (cfg : build_config) : Prop :=
  0 <= ARM_FAULT_FAULT_INFO_VER_MAJOR cfg < 256 /\
  0 <= ARM_FAULT_FAULT_INFO_VER_MINOR cfg < 256.

(** The stack pointer selected at exception entry is unusable: it is zero,
    or the fault registers exist and CFSR reports a stacking error. *)
Definition stack_invalid (cfg : build_config) (s : state) : Prop :=
  stacked_sp cfg s = 0 \/
  (ARM_FAULT_FAULT_REGS_EXIST cfg = true /\
   Z.land (load (bus s) (scb_base cfg s + cfsr_ofs))
          (SCB_CFSR_Stack_Err_Msk cfg) <> 0).


(** A store into a word of the record. *)
Definition in_record (e : Z * Z) : Prop :=
  0 <= fst e < sizeof_ARM_FaultInfo /\ fst e mod 4 = 0.

(** ** Concrete builds and entry states *)

(** Armv8-M Mainline, Secure build, version 1.1. *)
Definition cfg_v8m_secure : build_config :=
  {| ARM_FAULT_FAULT_REGS_EXIST := true;
     ARM_FAULT_ARCH_ARMV8x_M := true;
     ARM_FAULT_ARCH_ARMV8x_M_MAIN := true;
     ARM_FAULT_ARCH_ARMV8_M_BASE := false;
     ARM_FAULT_ARCH_ARMV8_1M_MAIN := false;
     ARM_FAULT_TZ_ENABLED := true;
     ARM_FAULT_TZ_SECURE := true;
     ARM_FAULT_FAULT_INFO_VER_MAJOR := 1;
     ARM_FAULT_FAULT_INFO_VER_MINOR := 1;
     SCB_CFSR_Stack_Err_Msk := 0x101010 |}.

(** Armv7-M: fault registers, no TrustZone, version 1.1. *)
Definition cfg_v7m : build_config :=
  {| ARM_FAULT_FAULT_REGS_EXIST := true;
     ARM_FAULT_ARCH_ARMV8x_M := false;
     ARM_FAULT_ARCH_ARMV8x_M_MAIN := false;
     ARM_FAULT_ARCH_ARMV8_M_BASE := false;
     ARM_FAULT_ARCH_ARMV8_1M_MAIN := false;
     ARM_FAULT_TZ_ENABLED := false;
     ARM_FAULT_TZ_SECURE := false;
     ARM_FAULT_FAULT_INFO_VER_MAJOR := 1;
     ARM_FAULT_FAULT_INFO_VER_MINOR := 1;
     SCB_CFSR_Stack_Err_Msk := 0x1010 |}.

(** An entry state: EXC_RETURN [lr], the same value [sp] in every stack
    pointer and limit, a record [m], a bus that reads [busval] everywhere;
    the flags clear, the Thumb bit and the exception number 3 (HardFault) in
    the rest of xPSR. *)
Definition entry_state (lr sp busval : Z) (m : memory) : state :=
  mkState (fun r => match r with LR => lr | _ => Z.of_nat (reg_idx r) end)
          false false false false 0x01000003
          (fun _ => sp)
          m (fun _ => busval) [].

(** A fault taken from the Non-Secure state on the process stack:
    EXC_RETURN = 0xFFFFFFBC has S = 0, DCRS = 1, SPSEL = 1. *)
Definition s_nonsecure_fault : state :=
  entry_state 0xFFFFFFBC 0x20001000 0 (fun _ => 0).

(** A record whose counter holds the largest 32-bit value. *)
Definition s_count_max : state :=
  entry_state 0xFFFFFFF9 0x20001000 0
              (fun a => if a =? count_addr then 0xFFFFFFFF else 0).

(** A fault with EXC_RETURN [lr] and every stack pointer at 0x20001000;
    the bus reads its own address below the system space and 0 in it, so
    that every stacked word is told apart and CFSR shows no error. *)
Definition stacked_state (lr : Z) : state :=
  mkState (fun r => match r with LR => lr | _ => Z.of_nat (reg_idx r) end)
          false false false false 0x01000003
          (fun _ => 0x20001000)
          (fun _ => 0)
          (fun a => if (0xE0000000 <=? a) then 0 else a) [].

(** EXC_RETURN = 0xFFFFFFF9: main stack, basic frame only. *)
Definition s_valid_stack : state := stacked_state 0xFFFFFFF9.


(** Handler-mode entry on the main stack with a zero stack pointer. *)
Definition s_zero_sp : state :=
  entry_state 0xFFFFFFF9 0 0 (fun _ => 0).

(** An entry state whose record was cleared by [ARM_FaultClear] after
    holding 0x55555555 in every word. *)
Definition s_cleared : state :=
  entry_state 0xFFFFFFF9 0x20001000 0 (ARM_FaultClear (fun _ => 0x55555555)).

(** A store into the payload above [count]. *)
Definition above_count (e : Z * Z) : Prop :=
  info_addr <= fst e < sizeof_ARM_FaultInfo.

(** * Properties *)

(** ** Bit-level facts *)

Lemma wrap32_range x : 0 <= wrap32 x < 2 ^ 32.
Proof. unfold wrap32. apply Z.mod_pos_bound. lia. Qed.

Lemma wrap32_small x : 0 <= x < 2 ^ 32 -> wrap32 x = x.
Proof. intros H. unfold wrap32. apply Z.mod_small. exact H. Qed.

Lemma land_top_bit c : (Z.land c 0x80000000 =? 0) = negb (Z.testbit c 31).
Proof.
  change 0x80000000 with (2 ^ 31).
  destruct (Z.testbit c 31) eqn:E; cbn [negb].
  - apply Z.eqb_neq. intros H.
    assert (F : Z.testbit (Z.land c (2 ^ 31)) 31 = false)
      by (rewrite H; apply Z.bits_0).
    rewrite Z.land_spec, E, Z.pow2_bits_true in F by lia. discriminate.
  - apply Z.eqb_eq. apply Z.bits_inj'. intros n Hn.
    rewrite Z.land_spec, Z.bits_0, Z.pow2_bits_eqb by lia.
    destruct (Z.eqb_spec 31 n) as [<-|]; [rewrite E|]; auto using andb_false_r.
Qed.

Lemma testbit_31_range c :
  0 <= c < 2 ^ 32 -> Z.testbit c 31 = (2 ^ 31 <=? c).
Proof.
  intros H. rewrite Z.testbit_eqb by lia.
  destruct (Z.leb_spec (2 ^ 31) c).
  - replace (c / 2 ^ 31) with 1; [reflexivity|].
    apply Z.div_unique with (r := c - 2 ^ 31); lia.
  - rewrite Z.div_small by lia. reflexivity.
Qed.

Lemma lxor_range n a b :
  0 <= n -> 0 <= a < 2 ^ n -> 0 <= b < 2 ^ n -> 0 <= Z.lxor a b < 2 ^ n.
Proof.
  intros Hn Ha Hb.
  assert (N : 0 <= Z.lxor a b) by (apply Z.lxor_nonneg; lia).
  split; [exact N|].
  destruct (Z.eq_dec (Z.lxor a b) 0) as [->|NZ]; [lia|].
  assert (0 < n).
  { destruct (Z.eq_dec n 0) as [->|]; [|lia].
    assert (a = 0) by lia. assert (b = 0) by lia. subst. contradiction. }
  apply Z.log2_lt_pow2; [lia|].
  pose proof (Z.log2_lxor a b ltac:(lia) ltac:(lia)) as L.
  assert (Z.log2 a < n).
  { destruct (Z.eq_dec a 0) as [->|]; [simpl; lia|]. apply Z.log2_lt_pow2; lia. }
  assert (Z.log2 b < n).
  { destruct (Z.eq_dec b 0) as [->|]; [simpl; lia|]. apply Z.log2_lt_pow2; lia. }
  lia.
Qed.

Lemma lxor_cancel_r a b p : Z.lxor a p = Z.lxor b p -> a = b.
Proof.
  intros H.
  rewrite <- (Z.lxor_0_r a), <- (Z.lxor_0_r b), <- (Z.lxor_nilpotent p).
  rewrite <- !Z.lxor_assoc. f_equal. exact H.
Qed.

Lemma lxor_cancel_l a b p : Z.lxor p a = Z.lxor p b -> a = b.
Proof. rewrite !(Z.lxor_comm p). apply lxor_cancel_r. Qed.

Lemma odd_lxor a b : Z.odd (Z.lxor a b) = xorb (Z.odd a) (Z.odd b).
Proof. rewrite <- !Z.bit0_odd. apply Z.lxor_spec. Qed.

(** ** The CRC engine *)

Lemma load_byte_range m a : 0 <= load_byte m a < 256.
Proof.
  unfold load_byte. change 255 with (Z.ones 8).
  rewrite Z.land_ones by lia. apply Z.mod_pos_bound. lia.
Qed.

Lemma shiftl_byte_24 b : 0 <= b < 256 -> wrap32 (Z.shiftl b 24) = b * 2 ^ 24.
Proof.
  intros H. rewrite Z.shiftl_mul_pow2 by lia. apply wrap32_small. lia.
Qed.

Section CRC.

Variable polynom : Z.
Hypothesis polynom_range : 0 <= polynom < 2 ^ 32.

Lemma crc_bit_arith c :
  0 <= c < 2 ^ 32 ->
  crc_bit polynom c =
  if 2 ^ 31 <=? c then Z.lxor (2 * c - 2 ^ 32) polynom else 2 * c.
Proof.
  intros H. unfold crc_bit.
  rewrite land_top_bit, negb_involutive, testbit_31_range by exact H.
  rewrite Z.shiftl_mul_pow2 by lia. replace (c * 2 ^ 1) with (2 * c) by lia.
  unfold wrap32.
  destruct (Z.leb_spec (2 ^ 31) c).
  - f_equal. symmetry. apply Z.mod_unique with (q := 1); lia.
  - apply Z.mod_small. lia.
Qed.

Lemma crc_bit_range c : 0 <= c < 2 ^ 32 -> 0 <= crc_bit polynom c < 2 ^ 32.
Proof.
  intros H. rewrite crc_bit_arith by exact H.
  destruct (Z.leb_spec (2 ^ 31) c); [|lia].
  apply lxor_range; lia.
Qed.

Lemma crc_bits_range n c :
  0 <= c < 2 ^ 32 -> 0 <= Nat.iter n (crc_bit polynom) c < 2 ^ 32.
Proof.
  intros H. induction n as [|n IH]; [exact H|]. simpl. apply crc_bit_range, IH.
Qed.

Lemma crc_byte_range c b :
  0 <= c < 2 ^ 32 -> 0 <= crc_byte polynom c b < 2 ^ 32.
Proof.
  intros H. unfold crc_byte. apply crc_bits_range.
  apply lxor_range; [lia|exact H|apply wrap32_range].
Qed.

Hypothesis polynom_odd : Z.odd polynom = true.

(** The shift register loses nothing: with an odd polynomial the bit shifted
    out is the parity of the result. *)
Lemma crc_bit_inj c c' :
  0 <= c < 2 ^ 32 -> 0 <= c' < 2 ^ 32 ->
  crc_bit polynom c = crc_bit polynom c' -> c = c'.
Proof.
  intros H H'. rewrite !crc_bit_arith by assumption.
  assert (E : forall x, Z.odd (Z.lxor (2 * x - 2 ^ 32) polynom) = true).
  { intros x. rewrite odd_lxor, polynom_odd.
    replace (2 * x - 2 ^ 32) with (2 * (x - 2 ^ 31)) by lia.
    rewrite Z.odd_mul. reflexivity. }
  assert (D : forall x, Z.odd (2 * x) = false)
    by (intros x; rewrite Z.odd_mul; reflexivity).
  destruct (Z.leb_spec (2 ^ 31) c), (Z.leb_spec (2 ^ 31) c'); intros Q.
  - apply lxor_cancel_r in Q. lia.
  - apply (f_equal Z.odd) in Q. rewrite E, D in Q. discriminate.
  - apply (f_equal Z.odd) in Q. rewrite E, D in Q. discriminate.
  - lia.
Qed.

Lemma crc_bits_inj n c c' :
  0 <= c < 2 ^ 32 -> 0 <= c' < 2 ^ 32 ->
  Nat.iter n (crc_bit polynom) c = Nat.iter n (crc_bit polynom) c' -> c = c'.
Proof.
  intros H H'. induction n as [|n IH]; [auto|]. simpl. intros Q.
  apply IH. apply crc_bit_inj; auto using crc_bits_range.
Qed.

Lemma crc_byte_inj_state c c' b :
  0 <= c < 2 ^ 32 -> 0 <= c' < 2 ^ 32 ->
  crc_byte polynom c b = crc_byte polynom c' b -> c = c'.
Proof.
  intros H H' Q. unfold crc_byte in Q.
  apply crc_bits_inj in Q;
    try (apply lxor_range; [lia|assumption|apply wrap32_range]).
  eapply lxor_cancel_r, Q.
Qed.

Lemma crc_byte_inj_data c b b' :
  0 <= c < 2 ^ 32 -> 0 <= b < 256 -> 0 <= b' < 256 ->
  crc_byte polynom c b = crc_byte polynom c b' -> b = b'.
Proof.
  intros H Hb Hb' Q. unfold crc_byte in Q.
  apply crc_bits_inj in Q;
    try (apply lxor_range; [lia|assumption|apply wrap32_range]).
  apply lxor_cancel_l in Q. rewrite !shiftl_byte_24 in Q by assumption. lia.
Qed.

(** The loop on a counter that is a genuine [uint32_t]. *)
Lemma CalcCRC32_while_S n m c p :
  Z.of_nat (S n) < 2 ^ 32 ->
  CalcCRC32_while (S n) m c p (Z.of_nat (S n)) polynom =
  CalcCRC32_while n m (crc_byte polynom c (load_byte m p)) (p + 1)
                  (Z.of_nat n) polynom.
Proof.
  intros H. cbn [CalcCRC32_while].
  destruct (Z.eqb_spec (Z.of_nat (S n)) 0) as [E|_]; [lia|].
  f_equal. rewrite wrap32_small by lia. lia.
Qed.

Lemma CalcCRC32_while_range n m c p :
  Z.of_nat n < 2 ^ 32 -> 0 <= c < 2 ^ 32 ->
  0 <= CalcCRC32_while n m c p (Z.of_nat n) polynom < 2 ^ 32.
Proof.
  revert c p. induction n as [|n IH]; intros c p Hn Hc; [exact Hc|].
  rewrite CalcCRC32_while_S by exact Hn.
  apply IH; [lia|]. apply crc_byte_range, Hc.
Qed.

(** Only the bytes of the range are read. *)
Lemma CalcCRC32_while_ext n m m' c p :
  Z.of_nat n < 2 ^ 32 ->
  (forall i, p <= i < p + Z.of_nat n -> load_byte m i = load_byte m' i) ->
  CalcCRC32_while n m c p (Z.of_nat n) polynom =
  CalcCRC32_while n m' c p (Z.of_nat n) polynom.
Proof.
  revert c p. induction n as [|n IH]; intros c p Hn Hm; [reflexivity|].
  rewrite !CalcCRC32_while_S by exact Hn.
  rewrite (Hm p) by lia. apply IH; [lia|]. intros i Hi. apply Hm. lia.
Qed.

(** Two different register values never meet again on the same bytes. *)
Lemma CalcCRC32_while_inj_state n m c c' p :
  Z.of_nat n < 2 ^ 32 -> 0 <= c < 2 ^ 32 -> 0 <= c' < 2 ^ 32 ->
  CalcCRC32_while n m c p (Z.of_nat n) polynom =
  CalcCRC32_while n m c' p (Z.of_nat n) polynom -> c = c'.
Proof.
  revert c c' p. induction n as [|n IH]; intros c c' p Hn Hc Hc' Q; [exact Q|].
  rewrite !CalcCRC32_while_S in Q by exact Hn.
  apply IH in Q; [|lia|apply crc_byte_range, Hc|apply crc_byte_range, Hc'].
  eapply crc_byte_inj_state; eauto.
Qed.

(** A change confined to one byte of the range changes the checksum. *)
Lemma CalcCRC32_while_one_byte n m m' c p k :
  Z.of_nat n < 2 ^ 32 -> 0 <= c < 2 ^ 32 ->
  p <= k < p + Z.of_nat n ->
  load_byte m k <> load_byte m' k ->
  (forall i, p <= i < p + Z.of_nat n -> i <> k ->
             load_byte m i = load_byte m' i) ->
  CalcCRC32_while n m c p (Z.of_nat n) polynom <>
  CalcCRC32_while n m' c p (Z.of_nat n) polynom.
Proof.
  revert c p. induction n as [|n IH]; intros c p Hn Hc Hk Hd Hm; [lia|].
  rewrite !CalcCRC32_while_S by exact Hn.
  destruct (Z.eq_dec k p) as [->|Hkp].
  - rewrite (CalcCRC32_while_ext n m m') by (try lia; intros i Hi; apply Hm; lia).
    intros Q. apply CalcCRC32_while_inj_state in Q;
      [|lia|apply crc_byte_range, Hc|apply crc_byte_range, Hc].
    apply crc_byte_inj_data in Q; auto using load_byte_range.
  - rewrite (Hm p) by lia.
    apply IH; [lia|apply crc_byte_range, Hc|lia|exact Hd|].
    intros i Hi. apply Hm. lia.
Qed.

End CRC.

(** ** The validity check and the clearing of the record *)

Lemma ARM_FaultOccurred_cases m :
  ARM_FaultOccurred m =
  if (Field.magic_number m =? ARM_FAULT_MAGIC_NUMBER) &&
     (Field.crc32 m =?
      CalcCRC32 m ARM_FAULT_CRC32_INIT_VAL crc_data_ptr crc_data_len
                ARM_FAULT_CRC32_POLYNOM)
  then 1 else 0.
Proof.
  unfold ARM_FaultOccurred.
  destruct (Field.magic_number m =? ARM_FAULT_MAGIC_NUMBER); cbn [negb andb].
  - change (1 =? 0) with false. cbn [negb].
    destruct (Field.crc32 m =? _); reflexivity.
  - reflexivity.
Qed.

Lemma ARM_FaultOccurred_bad_magic m :
  Field.magic_number m <> ARM_FAULT_MAGIC_NUMBER -> ARM_FaultOccurred m = 0.
Proof.
  intros H. rewrite ARM_FaultOccurred_cases.
  apply Z.eqb_neq in H. rewrite H. reflexivity.
Qed.

Lemma occurred_true_iff m :
  ARM_FaultOccurred m = 1 <->
  Field.magic_number m = ARM_FAULT_MAGIC_NUMBER /\
  Field.crc32 m =
  CalcCRC32 m ARM_FAULT_CRC32_INIT_VAL crc_data_ptr crc_data_len
            ARM_FAULT_CRC32_POLYNOM.
Proof.
  rewrite ARM_FaultOccurred_cases.
  destruct (Z.eqb_spec (Field.magic_number m) ARM_FAULT_MAGIC_NUMBER) as [E|E];
    cbn [andb];
    [destruct (Z.eqb_spec (Field.crc32 m)
                 (CalcCRC32 m ARM_FAULT_CRC32_INIT_VAL crc_data_ptr
                    crc_data_len ARM_FAULT_CRC32_POLYNOM)) as [F|F]|];
    split; try discriminate; tauto.
Qed.

(** C1: [ARM_FaultOccurred] returns 1 exactly when [magic_number] holds the
    magic constant and [crc32] holds the CRC-32 (fixed initial value and
    polynomial) of the bytes from [count] to the end of the record; in every
    other record state it returns 0. *)
Theorem ARM_FaultOccurred_iff m :
  (ARM_FaultOccurred m = 1 <->
   Field.magic_number m = ARM_FAULT_MAGIC_NUMBER /\
   Field.crc32 m =
   CalcCRC32 m ARM_FAULT_CRC32_INIT_VAL crc_data_ptr crc_data_len
             ARM_FAULT_CRC32_POLYNOM) /\
  (~ (Field.magic_number m = ARM_FAULT_MAGIC_NUMBER /\
      Field.crc32 m =
      CalcCRC32 m ARM_FAULT_CRC32_INIT_VAL crc_data_ptr crc_data_len
                ARM_FAULT_CRC32_POLYNOM) ->
   ARM_FaultOccurred m = 0).
Proof.
  split; [apply occurred_true_iff|].
  intros N. rewrite <- occurred_true_iff in N.
  rewrite ARM_FaultOccurred_cases in *.
  destruct (_ && _); [exfalso; apply N|]; reflexivity.
Qed.

Lemma ARM_FaultOccurred_iff_witness : ARM_FaultOccurred sealed_blank = 1.
Proof.
  apply (proj1 (ARM_FaultOccurred_iff sealed_blank)).
  split; vm_compute; reflexivity.
Defined.

(** C7: right after [ARM_FaultClear] the validity check returns 0, whatever
    the record held before. *)
Theorem ARM_FaultOccurred_after_clear m :
  ARM_FaultOccurred (ARM_FaultClear m) = 0.
Proof. apply ARM_FaultOccurred_bad_magic. discriminate. Qed.

(** C10: on an empty byte range [CalcCRC32] returns its initial value, for
    every initial value, pointer and polynomial. *)
Theorem CalcCRC32_empty m init_val data_ptr polynom :
  CalcCRC32 m init_val data_ptr 0 polynom = init_val.
Proof. reflexivity. Qed.

(** ** Single-bit corruption of the payload *)

Lemma load_byte_store_other m a v k :
  k - k mod 4 <> a -> load_byte (store a v m) k = load_byte m k.
Proof.
  intros H. unfold load_byte, store.
  destruct (Z.eqb_spec (k - k mod 4) a); [contradiction|reflexivity].
Qed.

Lemma testbit_load_byte m k i :
  0 <= i < 8 -> 0 <= k mod 4 ->
  Z.testbit (load_byte m k) i = Z.testbit (m (k - k mod 4)) (i + 8 * (k mod 4)).
Proof.
  intros Hi Hk. unfold load_byte. change 255 with (Z.ones 8).
  rewrite Z.land_spec, Z.shiftr_spec, Z.ones_spec_low by lia.
  apply andb_true_r.
Qed.

Lemma load_byte_bits_eq m m' k k' :
  (forall i, 0 <= i < 8 ->
             Z.testbit (load_byte m k) i = Z.testbit (load_byte m' k') i) ->
  load_byte m k = load_byte m' k'.
Proof.
  intros H. apply Z.bits_inj'. intros i Hi.
  destruct (Z.ltb_spec i 8); [apply H; lia|].
  unfold load_byte. change 255 with (Z.ones 8).
  rewrite !Z.land_spec, !Z.ones_spec_high by lia.
  rewrite !andb_false_r. reflexivity.
Qed.

(** Inverting bit [b] of the word at [a] changes byte [a + b / 8]... *)
Lemma load_byte_flip_bit_same m a b :
  a mod 4 = 0 -> 0 <= b < 32 ->
  load_byte (flip_bit a b m) (a + b / 8) <> load_byte m (a + b / 8).
Proof.
  intros Ha Hb Q.
  assert (D : 0 <= b / 8 < 4)
    by (split; [apply Z.div_pos; lia|apply Z.div_lt_upper_bound; lia]).
  assert (M : (a + b / 8) mod 4 = b / 8).
  { rewrite Z.add_mod, Ha, Z.add_0_l, Z.mod_mod by lia. apply Z.mod_small, D. }
  assert (B : 0 <= b mod 8 < 8) by (apply Z.mod_pos_bound; lia).
  apply (f_equal (fun x => Z.testbit x (b mod 8))) in Q.
  rewrite !testbit_load_byte in Q by lia.
  rewrite M in Q.
  replace (a + b / 8 - b / 8) with a in Q by lia.
  replace (b mod 8 + 8 * (b / 8)) with b in Q
    by (rewrite (Z.div_mod b 8) at 1; lia).
  unfold flip_bit, store, load in Q. rewrite Z.eqb_refl in Q.
  rewrite Z.lxor_spec, Z.shiftl_spec, Z.sub_diag in Q by lia.
  change (Z.testbit 1 0) with true in Q.
  destruct (Z.testbit (m a) b); discriminate.
Qed.

(** ... and no other byte. *)
Lemma load_byte_flip_bit_other m a b k :
  a mod 4 = 0 -> 0 <= b < 32 -> k <> a + b / 8 ->
  load_byte (flip_bit a b m) k = load_byte m k.
Proof.
  intros Ha Hb Hk.
  destruct (Z.eq_dec (k - k mod 4) a) as [E|E];
    [|apply load_byte_store_other, E].
  assert (K : 0 <= k mod 4 < 4) by (apply Z.mod_pos_bound; lia).
  apply load_byte_bits_eq. intros i Hi.
  rewrite !testbit_load_byte by lia. rewrite E.
  unfold flip_bit, store, load. rewrite Z.eqb_refl.
  rewrite Z.lxor_spec, Z.shiftl_spec by lia.
  replace (Z.testbit 1 (i + 8 * (k mod 4) - b)) with false;
    [apply xorb_false_r|].
  symmetry. change 1 with (2 ^ 0).
  destruct (Z.ltb_spec (i + 8 * (k mod 4)) b).
  - apply Z.testbit_neg_r. lia.
  - rewrite Z.pow2_bits_eqb by lia. apply Z.eqb_neq.
    intros F. apply Hk.
    assert (b = i + 8 * (k mod 4)) as -> by lia.
    replace ((i + 8 * (k mod 4)) / 8) with (k mod 4); [lia|].
    apply Z.div_unique with (r := i); lia.
Qed.

Lemma load_flip_bit_other m a b x :
  x <> a -> load (flip_bit a b m) x = load m x.
Proof.
  intros H. unfold flip_bit, load, store.
  destruct (Z.eqb_spec x a); [contradiction|reflexivity].
Qed.

(** The checksum of the payload reads the payload only. *)
Lemma CalcCRC32_reads_range_cells m m' :
  (forall i, count_addr <= i < sizeof_ARM_FaultInfo ->
             load_byte m i = load_byte m' i) ->
  CalcCRC32 m ARM_FAULT_CRC32_INIT_VAL crc_data_ptr crc_data_len
            ARM_FAULT_CRC32_POLYNOM =
  CalcCRC32 m' ARM_FAULT_CRC32_INIT_VAL crc_data_ptr crc_data_len
            ARM_FAULT_CRC32_POLYNOM.
Proof.
  intros H. unfold CalcCRC32. change (Z.to_nat crc_data_len) with 136%nat.
  change crc_data_len with (Z.of_nat 136).
  apply CalcCRC32_while_ext; [reflexivity|].
  intros i Hi. apply H. exact Hi.
Qed.

Lemma flip_payload_bit m a b :
  ARM_FaultOccurred m = 1 ->
  a mod 4 = 0 -> count_addr <= a < sizeof_ARM_FaultInfo -> 0 <= b < 32 ->
  ARM_FaultOccurred (flip_bit a b m) = 0.
Proof.
  intros V Ha Hr Hb.
  apply occurred_true_iff in V. destruct V as [Vm Vc].
  unfold count_addr, sizeof_ARM_FaultInfo in Hr.
  rewrite ARM_FaultOccurred_cases.
  unfold Field.magic_number, Field.crc32, magic_number_addr, crc32_addr in *.
  rewrite !load_flip_bit_other by lia.
  rewrite Vm, Z.eqb_refl. cbn [andb].
  destruct (Z.eqb_spec (load m 4)
              (CalcCRC32 (flip_bit a b m) ARM_FAULT_CRC32_INIT_VAL crc_data_ptr
                 crc_data_len ARM_FAULT_CRC32_POLYNOM)) as [E|E];
    [exfalso|reflexivity].
  rewrite Vc in E. revert E.
  assert (D : 0 <= b / 8 < 4)
    by (split; [apply Z.div_pos; lia|apply Z.div_lt_upper_bound; lia]).
  unfold CalcCRC32. change (Z.to_nat crc_data_len) with 136%nat.
  change crc_data_len with (Z.of_nat 136). change crc_data_ptr with 8.
  intros E. symmetry in E. revert E.
  apply CalcCRC32_while_one_byte with (k := a + b / 8);
    try (vm_compute; intuition congruence).
  - change (Z.of_nat 136) with 136. pose proof (Z.div_mod a 4 ltac:(lia)). lia.
  - apply load_byte_flip_bit_same; assumption.
  - intros i _ Hi. apply load_byte_flip_bit_other; assumption.
Qed.

(** C8: on a record that the validity check accepts, inverting any single
    bit of the payload (bit [b] of the word at offset [a], from [count] to the
    end of the record) makes the validity check return 0. *)
Theorem ARM_FaultOccurred_flip_bit m a b :
  ARM_FaultOccurred m = 1 ->
  a mod 4 = 0 -> count_addr <= a < sizeof_ARM_FaultInfo -> 0 <= b < 32 ->
  ARM_FaultOccurred (flip_bit a b m) = 0.
Proof. apply flip_payload_bit. Qed.

Lemma ARM_FaultOccurred_flip_bit_witness :
  ARM_FaultOccurred (flip_bit count_addr 0 sealed_blank) = 0.
Proof.
  apply (ARM_FaultOccurred_flip_bit sealed_blank count_addr 0);
    vm_compute; intuition congruence.
Defined.

Lemma tampered_record_flip_counterexample :
  ARM_FaultOccurred tampered_record = 0 /\
  ARM_FaultOccurred (flip_bit count_addr 0 tampered_record) = 1.
Proof. split; vm_compute; reflexivity. Qed.

(** ** Symbolic execution of the sections of [ARM_FaultSave] *)

Ltac machine :=
  cbn [seq nop movs mov ldr_lit mrs mrs_xpsr lsrs lsls adds subs cmp_imm cmp
       orrs ands eors ldr_fi ldrb_fi str_fi stm_fi ldm_fi ldr_bus ldm_bus dsb
       set get set_NZ set_NZC set_NZCV write_fi reg_eqb reg_idx Nat.eqb regs
       flagN flagZ flagC flagV psr sregs fi bus log load set_info_bit].

Ltac rewrite_regs :=
  cbv [get];
  repeat match goal with
         | H : regs ?t ?r = _ |- context [regs ?t ?r] => rewrite H
         end.

Ltac decide_flag :=
  first [ reflexivity
        | assumption
        | symmetry; assumption
        | machine; rewrite_regs;
          first [reflexivity | assumption | symmetry; assumption] ].

(** Resolve the innermost conditional branch from the hypotheses. *)
Ltac branch :=
  match goal with
  | |- context [if ?c then _ else _] =>
      lazymatch c with
      | context [if _ then _ else _] => fail
      | _ => idtac
      end;
      first [ replace c with true by decide_flag
            | replace c with false by decide_flag ];
      cbv beta iota
  end.

Ltac split_cfg cfg :=
  destruct cfg as [fr v8 v8main v8base v81 tze tzs vmaj vmin msk];
  cbv [ARM_FAULT_FAULT_REGS_EXIST ARM_FAULT_ARCH_ARMV8x_M
       ARM_FAULT_ARCH_ARMV8x_M_MAIN ARM_FAULT_ARCH_ARMV8_M_BASE
       ARM_FAULT_ARCH_ARMV8_1M_MAIN ARM_FAULT_TZ_ENABLED ARM_FAULT_TZ_SECURE
       SCB_CFSR_Stack_Err_Msk] in *.

(** Unfold the sections down to instructions and conditional branches. *)
Ltac sections :=
  cbv [read_count store_count store_info store_r4_r11 load_psp_ns load_psp
       load_msp_ns load_msp psp_used msp_used r6_points_to_stack
       set_tz_fault_mode tz_fault_mode stack_pointer_is_zero
       stack_info_is_invalid load_cfsr_ns_addr load_cfsr_addr load_cfsr_val
       check_CFSR stack_check copy_additional_context additional_context
       copy_state_context state_context load_sps_ns load_sps store_regs
       exc_context load_splims_ns load_splims store_splims splims
       load_scb_ns_addr load_scb_addr rfsr secure_fault_regs load_fault_regs
       asm_block_2 store_crc32 store_magic_number restored_r4_to_r7
       bcc bcs bne beq seq
       ARM_FAULT_FAULT_REGS_EXIST ARM_FAULT_ARCH_ARMV8x_M
       ARM_FAULT_ARCH_ARMV8x_M_MAIN ARM_FAULT_ARCH_ARMV8_M_BASE
       ARM_FAULT_ARCH_ARMV8_1M_MAIN ARM_FAULT_TZ_ENABLED ARM_FAULT_TZ_SECURE
       SCB_CFSR_Stack_Err_Msk andb orb negb].

Ltac extends_refl := unfold extends; repeat split; reflexivity.

Lemma extends_trans s t u W W' :
  extends s t W -> extends t u W' -> extends s u (W' ++ W).
Proof.
  unfold extends.
  intros (L & F & B & S & R & R8 & R9 & R10 & R11 & P)
         (L' & F' & B' & S' & R' & R8' & R9' & R10' & R11' & P').
  repeat split; try congruence.
  - rewrite L', L. apply app_assoc.
  - rewrite F', F. unfold replay. symmetry. apply fold_right_app.
Qed.

Lemma entry_section_extends cfg s :
  extends s (entry_section cfg s) (entry_writes cfg s).
Proof. extends_refl. Qed.

Lemma stack_resolved cfg t :
  let t' := tz_fault_mode cfg (r6_points_to_stack cfg t) in
  extends t t' (tz_writes cfg (ns_alias cfg t) (load (fi t) info_addr)) /\
  get R6 t' = stacked_sp cfg t /\
  get R7 t' = Z.b2z (ns_alias cfg t).
Proof.
  split_cfg cfg.
  cbv [stacked_sp stacked_sp_reg ns_alias tz_writes ARM_FAULT_TZ_SECURE].
  destruct (Z.testbit (get LR t) 2) eqn:B2;
  destruct (Z.testbit (get LR t) 6) eqn:B6;
  destruct tzs;
  sections; repeat branch; (split; [extends_refl | split; reflexivity]).
Qed.

Lemma stack_checked cfg t :
  get R6 t = stacked_sp cfg t ->
  get R7 t = Z.b2z (ns_alias cfg t) ->
  let t' := stack_check cfg t in
  extends t t' [] /\
  get R6 t' = get R6 t /\
  get R7 t' = r7_flags (ns_alias cfg t) (stack_invalid_b cfg t) /\
  flagV t' = sub_overflow (get R6 t) 0.
Proof.
  intros H6 H7. unfold get in H6, H7.
  split_cfg cfg.
  cbv [stack_invalid_b scb_base ns_alias ARM_FAULT_TZ_SECURE
       ARM_FAULT_FAULT_REGS_EXIST SCB_CFSR_Stack_Err_Msk r7_flags] in *.
  destruct tzs; destruct fr; destruct (Z.testbit (get LR t) 6) eqn:B6;
    cbv [andb negb Z.b2z] in *;
    (destruct (wrap32 (stacked_sp _ t - 0) =? 0) eqn:Ez;
     [|try match goal with
           | |- context [Z.land ?a ?b =? 0] => destruct (Z.land a b =? 0) eqn:Ec
           end]);
    sections; repeat branch;
    (split; [extends_refl | split; [reflexivity|split; [|reflexivity]]]);
    machine; rewrite_regs; reflexivity.
Qed.

Lemma state_context_extends cfg t ns inv sp :
  get R6 t = sp ->
  get R7 t = r7_flags ns inv ->
  let t' := state_context cfg t in
  let i := Z.lor (load (fi t) info_addr) info_state_context_msk in
  extends t t' (ctx_writes cfg inv (get LR t) (bus t) sp
                           (load (fi t) info_addr)) /\
  get R7 t' = get R7 t /\
  flagN t' = (if inv then false else Z.testbit i 31) /\
  flagZ t' = (if inv then true else i =? 0) /\
  flagC t' = (if inv then true
              else ARM_FAULT_ARCH_ARMV8x_M cfg && Z.testbit (get LR t) 5) /\
  flagV t' = flagV t.
Proof.
  intros H6 H7. unfold get in H6, H7. subst sp.
  split_cfg cfg.
  cbv [ctx_writes additional_pushed r7_flags ARM_FAULT_ARCH_ARMV8x_M] in *.
  cbv zeta.
  destruct ns, inv, v8; destruct (Z.testbit (get LR t) 5) eqn:B5;
    cbv [andb negb Z.b2z] in *;
    sections; repeat branch;
    (split; [extends_refl | repeat split; decide_flag]).
Qed.

Lemma live_context_extends cfg t inv :
  get R7 t = r7_flags (ns_alias cfg t) inv ->
  let t' := splims cfg (exc_context cfg t) in
  extends t t' (lim_writes cfg (ns_alias cfg t) (sregs t)
                           (load (fi t) info_addr) ++
                exc_writes (ns_alias cfg t) (get LR t) (sregs t)
                           (xpsr_read t)) /\
  get R7 t' = get R7 t.
Proof.
  intros H7. unfold get in H7.
  split_cfg cfg.
  cbv [lim_writes limits_stored exc_writes ns_alias r7_flags
       ARM_FAULT_ARCH_ARMV8x_M ARM_FAULT_ARCH_ARMV8_M_BASE
       ARM_FAULT_TZ_SECURE] in *.
  destruct tzs, inv, v8, v8base; destruct (Z.testbit (get LR t) 6) eqn:B6;
    cbv [andb negb Z.b2z] in *;
    sections; repeat branch; (split; [extends_refl | reflexivity]).
Qed.

Lemma asm_block_2_extends cfg t inv :
  get R7 t = r7_flags (ns_alias cfg t) inv ->
  extends t (asm_block_2 cfg t)
          (fault_writes cfg (ns_alias cfg t) (bus t) (load (fi t) info_addr)).
Proof.
  intros H7. unfold get in H7.
  split_cfg cfg.
  cbv [fault_writes secure_writes ras_writes core_fault_writes info_after_ras
       info_after_core ns_alias r7_flags
       ARM_FAULT_FAULT_REGS_EXIST ARM_FAULT_ARCH_ARMV8x_M_MAIN
       ARM_FAULT_ARCH_ARMV8_1M_MAIN ARM_FAULT_TZ_SECURE] in *.
  destruct tzs, inv, fr, v8main, v81; destruct (Z.testbit (get LR t) 6) eqn:B6;
    cbv [andb negb Z.b2z] in *;
    sections; repeat branch; extends_refl.
Qed.

(** ** The CRC loop of the third block *)

Lemma agree_except_trans rs rs' s t u :
  agree_except rs s t -> agree_except rs' t u ->
  (forall r, In r rs -> In r rs') ->
  agree_except rs' s u.
Proof.
  intros (F & L & B & S & P & R) (F' & L' & B' & S' & P' & R') I.
  repeat split; try congruence.
  intros r Hr. rewrite R' by exact Hr. apply R. auto.
Qed.

Ltac not_in := cbn [In]; intuition discriminate.

Ltac agree_refl :=
  unfold agree_except; repeat split; try reflexivity;
  let r := fresh "r" in let H := fresh "H" in
  intros r H; destruct r; try reflexivity; exfalso; apply H; cbn [In]; tauto.

(** One turn of [crc_floop]: shift, conditional xor, count down. *)
Lemma crc_floop_turn s :
  let s1 := subs R4 R4 1 (bcc nop (eors R0 R0 R3) (lsls R0 R0 1 s)) in
  get R0 s1 = crc_bit (get R3 s) (get R0 s) /\
  get R4 s1 = wrap32 (get R4 s - 1) /\
  flagZ s1 = (wrap32 (get R4 s - 1) =? 0) /\
  agree_except [R0; R4] s s1.
Proof.
  unfold crc_bit. rewrite land_top_bit, negb_involutive.
  destruct (Z.testbit (get R0 s) 31) eqn:E;
    cbv [bcc]; branch; (repeat split; [reflexivity..|agree_refl]).
Qed.

Lemma crc_floop_unfold fuel s :
  crc_floop fuel s =
  let s1 := subs R4 R4 1 (bcc nop (eors R0 R0 R3) (lsls R0 R0 1 s)) in
  match fuel with
  | O => s1
  | S fuel' => if flagZ s1 then s1 else crc_floop fuel' s1
  end.
Proof. destruct fuel; reflexivity. Qed.

Lemma wrap32_pred_of_nat k :
  Z.of_nat (S k) < 2 ^ 32 -> wrap32 (Z.of_nat (S k) - 1) = Z.of_nat k.
Proof. intros H. rewrite wrap32_small by lia. lia. Qed.

Lemma crc_floop_spec k : forall fuel s,
  (k <= fuel)%nat ->
  get R4 s = Z.of_nat (S k) -> Z.of_nat (S k) < 2 ^ 32 ->
  let s' := crc_floop fuel s in
  get R0 s' = Nat.iter (S k) (crc_bit (get R3 s)) (get R0 s) /\
  agree_except [R0; R4] s s'.
Proof.
  induction k as [|k IH]; intros fuel s Hf H4 Hb; cbv zeta;
    rewrite crc_floop_unfold; cbv zeta;
    destruct (crc_floop_turn s) as (T0 & T4 & TZ & TA);
    rewrite H4, wrap32_pred_of_nat in T4, TZ by exact Hb.
  - assert (Z1 : flagZ (subs R4 R4 1 (bcc nop (eors R0 R0 R3) (lsls R0 R0 1 s)))
                 = true) by exact TZ.
    rewrite Z1. split; [|destruct fuel; exact TA].
    destruct fuel; exact T0.
  - destruct fuel as [|fuel]; [lia|].
    replace (flagZ (subs R4 R4 1 (bcc nop (eors R0 R0 R3) (lsls R0 R0 1 s))))
      with false
      by (rewrite TZ; symmetry; apply Z.eqb_neq; lia).
    destruct (IH fuel _ ltac:(lia) T4 ltac:(lia)) as (I0 & IA).
    split.
    + rewrite I0, T0. destruct TA as (_ & _ & _ & _ & _ & TR).
      rewrite (TR R3) by not_in. symmetry. apply Nat.iter_succ_r.
    + apply agree_except_trans
        with (rs := [R0; R4])
             (t := subs R4 R4 1 (bcc nop (eors R0 R0 R3) (lsls R0 R0 1 s)));
        auto.
Qed.

(** One turn of [crc_wloop]: one byte of the range. *)
Lemma crc_wloop_spec s :
  let s' := crc_wloop s in
  get R0 s' = crc_byte (get R3 s) (get R0 s) (load_byte (fi s) (get R1 s)) /\
  get R1 s' = wrap32 (get R1 s + 1) /\
  get R2 s' = wrap32 (get R2 s - 1) /\
  agree_except [R0; R1; R2; R4; R5] s s'.
Proof.
  cbv zeta. unfold crc_wloop, seq, with_fuel.
  set (s0 := movs R4 8 (eors R0 R0 R5 (lsls R5 R5 24 (ldrb_fi R5 R1 0 s)))).
  change (Z.to_nat (get R4 s0)) with 8%nat.
  destruct (crc_floop_spec 7 8 s0 ltac:(lia) eq_refl ltac:(reflexivity))
    as (L0 & (LF & LL & LB & LS & LP & LR)).
  split; [|split; [|split; [|unfold agree_except; repeat split]]].
  - change (get R0 (subs R2 R2 1 (adds R1 R1 1 (crc_floop 8 s0))))
      with (get R0 (crc_floop 8 s0)).
    rewrite L0. unfold crc_byte.
    change (get R3 s0) with (get R3 s).
    change (get R0 s0)
      with (Z.lxor (get R0 s)
              (wrap32 (Z.shiftl (load_byte (fi s) (get R1 s + 0)) 24))).
    rewrite Z.add_0_r. reflexivity.
  - change (get R1 (subs R2 R2 1 (adds R1 R1 1 (crc_floop 8 s0))))
      with (wrap32 (get R1 (crc_floop 8 s0) + 1)).
    rewrite (LR R1) by not_in. reflexivity.
  - change (get R2 (subs R2 R2 1 (adds R1 R1 1 (crc_floop 8 s0))))
      with (wrap32 (get R2 (crc_floop 8 s0) - 1)).
    rewrite (LR R2) by not_in. reflexivity.
  - exact LF.
  - exact LL.
  - exact LB.
  - exact LS.
  - exact LP.
  - intros r Hr.
    transitivity (get r (crc_floop 8 s0)).
    + destruct r; try reflexivity; exfalso; apply Hr; cbn [In]; tauto.
    + rewrite LR by (intros I; apply Hr; cbn [In] in *; tauto).
      destruct r; try reflexivity; exfalso; apply Hr; cbn [In]; tauto.
Qed.

Lemma crc_check_spec n : forall s,
  get R2 s = Z.of_nat n -> Z.of_nat n < 2 ^ 32 ->
  (n <> O -> 0 <= get R1 s /\ get R1 s + Z.of_nat n <= 2 ^ 32) ->
  let s' := crc_check n s in
  get R0 s' =
  CalcCRC32_while n (fi s) (get R0 s) (get R1 s) (Z.of_nat n) (get R3 s) /\
  agree_except [R0; R1; R2; R4; R5] s s' /\
  get R2 s' = 0 /\ flagZ s' = true.
Proof.
  induction n as [|n IH]; intros s H2 Hn Hp; cbv zeta.
  - split; [reflexivity|]. split; [agree_refl|].
    split; [exact H2|].
    cbn [crc_check seq nop cmp_imm set_NZCV flagZ]. rewrite H2. reflexivity.
  - cbn [crc_check]. unfold seq, bne.
    replace (flagZ (cmp_imm R2 0 s)) with false
      by (cbn [cmp_imm set_NZCV flagZ]; rewrite H2; symmetry;
          apply Z.eqb_neq; rewrite wrap32_small; lia).
    set (s0 := cmp_imm R2 0 s).
    destruct (crc_wloop_spec s0) as (W0 & W1 & W2 & WA).
    change (get R0 s0) with (get R0 s) in W0.
    change (get R1 s0) with (get R1 s) in W0, W1.
    change (get R2 s0) with (get R2 s) in W2.
    change (get R3 s0) with (get R3 s) in W0.
    change (fi s0) with (fi s) in W0.
    rewrite H2, wrap32_pred_of_nat in W2 by exact Hn.
    destruct Hp as [P0 P1]; [discriminate|].
    destruct (IH (crc_wloop s0) W2 ltac:(lia)) as (I0 & IA & I2 & IZ).
    { intros NZ. rewrite W1, wrap32_small by lia. lia. }
    split; [|split; [|split; assumption]].
    + rewrite I0, CalcCRC32_while_S by exact Hn.
      destruct WA as (WF & _ & _ & _ & _ & WR).
      rewrite WF, W0, (WR R3) by not_in.
      change (fi s0) with (fi s). change (get R3 s0) with (get R3 s).
      destruct n as [|n]; [reflexivity|].
      rewrite W1, wrap32_small by lia. reflexivity.
    + apply agree_except_trans
        with (rs := [R0; R1; R2; R4; R5]) (t := crc_wloop s0);
        [|exact IA|auto].
      apply agree_except_trans with (rs := []) (t := s0);
        [subst s0; agree_refl|exact WA|cbn [In]; tauto].
Qed.

(** The loop of the assembly and the C function agree, and the loop is left
    through its test, with R2 = 0. *)
Lemma crc32_asm_spec init_val data_ptr data_len polynom s :
  0 <= data_len < 2 ^ 32 ->
  0 <= data_ptr -> data_ptr + data_len <= 2 ^ 32 ->
  let s' := crc32_asm init_val data_ptr data_len polynom s in
  get R0 s' = CalcCRC32 (fi s) init_val data_ptr data_len polynom /\
  agree_except [R0; R1; R2; R3; R4; R5] s s' /\
  get R2 s' = 0 /\ flagZ s' = true.
Proof.
  intros Hl Hp Hq. cbv zeta. unfold crc32_asm, seq, with_fuel.
  set (s0 := ldr_lit R3 polynom (ldr_lit R2 data_len
               (ldr_lit R1 data_ptr (ldr_lit R0 init_val s)))).
  change (get R2 s0) with data_len.
  assert (E : Z.of_nat (Z.to_nat data_len) = data_len) by (apply Z2Nat.id; lia).
  destruct (crc_check_spec (Z.to_nat data_len) s0) as (C0 & CA & C2 & CZ).
  - change (get R2 s0) with data_len. symmetry. exact E.
  - lia.
  - intros _. change (get R1 s0) with data_ptr. lia.
  - split; [|split; [|split; assumption]].
    + rewrite C0, E. reflexivity.
    + apply agree_except_trans with (rs := [R0; R1; R2; R3]) (t := s0);
        [subst s0; agree_refl| |cbn [In]; tauto].
      apply agree_except_trans
        with (rs := [R0; R1; R2; R4; R5]) (t := crc_check (Z.to_nat data_len) s0);
        [exact CA| |cbn [In]; tauto].
      agree_refl.
Qed.

(** ** The third block and the whole routine *)

Lemma restored_r4_to_r7_agree cfg t :
  agree_except [R0; R1; R2; R4; R5; R6; R7] t (restored_r4_to_r7 cfg t).
Proof.
  split_cfg cfg. destruct v8; sections.
  - match goal with
    | |- context [if ?c then _ else _] => destruct c
    end; agree_refl.
  - agree_refl.
Qed.

Lemma calc_crc32_spec t :
  get R0 (calc_crc32 t) =
  CalcCRC32 (fi t) ARM_FAULT_CRC32_INIT_VAL crc_data_ptr crc_data_len
            ARM_FAULT_CRC32_POLYNOM /\
  agree_except [R0; R1; R2; R3; R4; R5] t (calc_crc32 t).
Proof.
  destruct (crc32_asm_spec ARM_FAULT_CRC32_INIT_VAL crc_data_ptr crc_data_len
              ARM_FAULT_CRC32_POLYNOM t) as (H0 & HA & _);
    [vm_compute; intuition discriminate..|].
  split; assumption.
Qed.

Lemma seal_extends cfg u :
  extends u
    (restored_r4_to_r7 cfg (dsb (store_magic_number (store_crc32 u))))
    [ (magic_number_addr, ARM_FAULT_MAGIC_NUMBER); (crc32_addr, get R0 u) ].
Proof.
  destruct (restored_r4_to_r7_agree cfg
              (dsb (store_magic_number (store_crc32 u))))
    as (RF & RL & RB & RS & RP & RR).
  unfold extends. rewrite RF, RL, RB, RS, RP, !RR by not_in.
  repeat split; reflexivity.
Qed.

Lemma asm_block_3_extends cfg t :
  extends t (asm_block_3 cfg t) (seal_writes (fi t)).
Proof.
  destruct (calc_crc32_spec t) as (C0 & CF & CL & CB & CS & CP & CR).
  unfold asm_block_3, seq, seal_writes.
  generalize (seal_extends cfg (calc_crc32 t)).
  generalize dependent (calc_crc32 t). intros u C0 CF CL CB CS CP CR.
  unfold extends. rewrite C0, CF, CL, CB, CS, CP, !CR by not_in.
  intros E. exact E.
Qed.

(** The decisions depend on EXC_RETURN, the stack pointers and the bus. *)
Lemma ns_alias_env cfg s t : get LR t = get LR s -> ns_alias cfg t = ns_alias cfg s.
Proof. intros H. unfold ns_alias. rewrite H. reflexivity. Qed.

Lemma stacked_sp_env cfg s t :
  get LR t = get LR s -> sregs t = sregs s ->
  stacked_sp cfg t = stacked_sp cfg s.
Proof.
  intros H S. unfold stacked_sp, stacked_sp_reg, ns_alias. rewrite H, S.
  reflexivity.
Qed.

Lemma stack_invalid_b_env cfg s t :
  get LR t = get LR s -> sregs t = sregs s -> bus t = bus s ->
  stack_invalid_b cfg t = stack_invalid_b cfg s.
Proof.
  intros H S B. unfold stack_invalid_b, scb_base.
  rewrite (stacked_sp_env cfg s t), (ns_alias_env cfg s t), B by assumption.
  reflexivity.
Qed.

Lemma info_after_tz_writes cfg ns i W m :
  load (replay (tz_writes cfg ns i ++ W) m) info_addr =
  if ARM_FAULT_TZ_SECURE cfg && negb ns
  then Z.lor i info_tz_fault_mode_msk
  else load (replay W m) info_addr.
Proof.
  unfold tz_writes. destruct (ARM_FAULT_TZ_SECURE cfg && negb ns); reflexivity.
Qed.

Lemma info_after_ctx_writes cfg inv lr b sp i W m :
  load (replay (ctx_writes cfg inv lr b sp i ++ W) m) info_addr =
  if inv then load (replay W m) info_addr
  else Z.lor i info_state_context_msk.
Proof.
  unfold ctx_writes. destruct inv, (additional_pushed cfg lr); reflexivity.
Qed.

Lemma info_after_live_writes cfg ns lr sr x i W m :
  load (replay ((lim_writes cfg ns sr i ++ exc_writes ns lr sr x) ++ W) m)
       info_addr =
  if limits_stored cfg ns then Z.lor i info_limit_regs_msk
  else load (replay W m) info_addr.
Proof.
  unfold lim_writes. destruct (limits_stored cfg ns); reflexivity.
Qed.

(** [cmp rn, #0] never overflows. *)
Lemma sub_overflow_0 v : sub_overflow v 0 = false.
Proof.
  unfold sub_overflow, wrap32. rewrite Z.sub_0_r.
  rewrite Z.mod_pow2_bits_low by lia.
  rewrite xorb_nilpotent. apply andb_false_r.
Qed.

Lemma ARM_FaultSave_sections cfg s :
  ARM_FaultSave cfg s =
  asm_block_3 cfg
    (asm_block_2 cfg
       (splims cfg (exc_context cfg
          (state_context cfg
             (stack_check cfg
                (tz_fault_mode cfg
                   (r6_points_to_stack cfg (entry_section cfg s)))))))).
Proof. reflexivity. Qed.

(** The stores of the routine before the third block. *)
Lemma ARM_FaultSave_body cfg s :
  exists t,
    ARM_FaultSave cfg s = asm_block_3 cfg t /\
    extends s t (body_writes cfg s).
Proof.
  rewrite ARM_FaultSave_sections.
  eexists; split; [reflexivity|].
  (* entry *)
  pose proof (entry_section_extends cfg s) as E.
  generalize dependent (entry_section cfg s). intros t1 E.
  assert (I : load (fi t1) info_addr = info_val cfg)
    by (destruct E as (_ & -> & _); reflexivity).
  (* stack resolution *)
  destruct (stack_resolved cfg t1) as (E2 & H6 & H7).
  pose proof E as (_ & _ & EB & ES & EL & _).
  rewrite (ns_alias_env cfg s t1 EL), I in E2.
  rewrite (stacked_sp_env cfg s t1 EL ES) in H6.
  rewrite (ns_alias_env cfg s t1 EL) in H7.
  pose proof (extends_trans _ _ _ _ _ E E2) as E'. clear E E2 I EB ES EL.
  generalize dependent (tz_fault_mode cfg (r6_points_to_stack cfg t1)).
  clear t1. intros t2 H6 H7 E.
  assert (I : load (fi t2) info_addr = info_after_tz cfg s).
  { destruct E as (_ & -> & _). rewrite info_after_tz_writes. reflexivity. }
  (* stack validity *)
  pose proof E as (_ & _ & EB & ES & EL & _).
  rewrite <- (stacked_sp_env cfg s t2 EL ES) in H6.
  rewrite <- (ns_alias_env cfg s t2 EL) in H7.
  destruct (stack_checked cfg t2 H6 H7) as (E3 & H6' & H7' & HV).
  rewrite sub_overflow_0 in HV.
  rewrite H6, (stacked_sp_env cfg s t2 EL ES) in H6'.
  rewrite (ns_alias_env cfg s t2 EL),
          (stack_invalid_b_env cfg s t2 EL ES EB) in H7'.
  pose proof (extends_trans _ _ _ _ _ E E3) as E'.
  change ([] ++ ?W) with W in E'.
  assert (I' : load (fi (stack_check cfg t2)) info_addr = info_after_tz cfg s)
    by (destruct E3 as (_ & -> & _); exact I).
  clear E E3 I EB ES EL H6 H7.
  generalize dependent (stack_check cfg t2). clear t2. intros t3 H6 H7 HV E I.
  (* stacked context *)
  pose proof E as (_ & _ & EB & ES & EL & _).
  destruct (state_context_extends cfg t3 _ _ _ H6 H7)
    as (E4 & H7' & FN & FZ & FC & FV).
  cbv zeta in FN, FZ.
  rewrite EL, EB, I in E4. rewrite H7 in H7'.
  rewrite I in FN, FZ. rewrite EL in FC. rewrite HV in FV.
  pose proof (extends_trans _ _ _ _ _ E E4) as E'.
  assert (X : xpsr_read (state_context cfg t3) = captured_xpsr cfg s).
  { unfold xpsr_read, captured_xpsr, flags_at_mrs.
    rewrite FN, FZ, FC, FV.
    destruct E' as (_ & _ & _ & _ & _ & _ & _ & _ & _ & ->).
    destruct (stack_invalid_b cfg s); reflexivity. }
  clear FN FZ FC FV HV.
  assert (I' : load (fi (state_context cfg t3)) info_addr = info_after_ctx cfg s).
  { destruct E' as (_ & -> & _). rewrite info_after_ctx_writes.
    unfold info_after_ctx. destruct (stack_invalid_b cfg s); [|reflexivity].
    destruct E as (_ & <- & _). exact I. }
  clear E E4 I EB ES EL H6 H7.
  generalize dependent (state_context cfg t3). clear t3. intros t4 H7 E X I.
  (* live context and limit registers *)
  pose proof E as (_ & _ & EB & ES & EL & _).
  rewrite <- (ns_alias_env cfg s t4 EL) in H7.
  destruct (live_context_extends cfg t4 _ H7) as (E5 & H7').
  rewrite (ns_alias_env cfg s t4 EL), EL, ES, I, X in E5.
  rewrite H7, (ns_alias_env cfg s t4 EL) in H7'.
  pose proof (extends_trans _ _ _ _ _ E E5) as E'.
  assert (I' : load (fi (splims cfg (exc_context cfg t4))) info_addr
               = info_after_lim cfg s).
  { destruct E' as (_ & -> & _). rewrite info_after_live_writes.
    unfold info_after_lim. destruct (limits_stored cfg (ns_alias cfg s));
      [reflexivity|].
    destruct E as (_ & <- & _). exact I. }
  clear E E5 I EB ES EL H7 X.
  generalize dependent (splims cfg (exc_context cfg t4)). clear t4.
  intros t5 H7 E I.
  (* fault registers *)
  pose proof E as (_ & _ & EB & ES & EL & _).
  rewrite <- (ns_alias_env cfg s t5 EL) in H7.
  pose proof (asm_block_2_extends cfg t5 _ H7) as E6.
  rewrite (ns_alias_env cfg s t5 EL), EB, I in E6.
  pose proof (extends_trans _ _ _ _ _ E E6) as E'.
  unfold body_writes. rewrite <- app_assoc in E'. exact E'.
Qed.

(** Every store of the routine, in order, and what it leaves untouched. *)
Theorem ARM_FaultSave_extends cfg s :
  extends s (ARM_FaultSave cfg s) (capture_writes cfg s).
Proof.
  destruct (ARM_FaultSave_body cfg s) as (t & -> & E).
  pose proof (asm_block_3_extends cfg t) as E3.
  pose proof E as (_ & F & _). rewrite F in E3.
  exact (extends_trans _ _ _ _ _ E E3).
Qed.

(** ** Stores and the cells they leave alone *)

Lemma replay_app W W' m : replay (W ++ W') m = replay W (replay W' m).
Proof. unfold replay. apply fold_right_app. Qed.

Lemma load_replay_skip W m a :
  Forall (fun e => fst e <> a) W -> load (replay W m) a = load m a.
Proof.
  induction 1 as [|[x v] W Hx _ IH]; [reflexivity|].
  cbn [replay fold_right fst snd] in *. unfold load, store in *.
  destruct (Z.eqb_spec a x); [congruence|exact IH].
Qed.

Lemma Forall_app_intro {A} (P : A -> Prop) l l' :
  Forall P l -> Forall P l' -> Forall P (l ++ l').
Proof. intros. apply Forall_app. split; assumption. Qed.

Ltac layout :=
  cbv [magic_number_addr crc32_addr count_addr info_addr r0_addr r4_addr
       r12_addr EXC_xPSR_addr csfr_reg_addr sfsr_reg_addr rfsr_reg_addr
       IntegritySignature_addr sizeof_ARM_FaultInfo] in *.

Ltac above :=
  repeat first [apply Forall_nil | apply Forall_cons | apply Forall_app_intro];
  cbn [fst]; layout; lia.

Lemma late_writes_above cfg s : Forall above_count (late_writes cfg s).
Proof.
  unfold late_writes, above_count.
  repeat apply Forall_app_intro.
  - unfold fault_writes, secure_writes, ras_writes, core_fault_writes.
    destruct (ARM_FAULT_FAULT_REGS_EXIST cfg); [|constructor].
    repeat apply Forall_app_intro.
    + destruct (ARM_FAULT_ARCH_ARMV8x_M_MAIN cfg && ARM_FAULT_TZ_SECURE cfg);
        above.
    + destruct (ARM_FAULT_ARCH_ARMV8_1M_MAIN cfg); above.
    + above.
  - unfold lim_writes. destruct (limits_stored _ _); above.
  - unfold exc_writes. above.
  - unfold ctx_writes, basic_writes, additional_writes.
    destruct (stack_invalid_b cfg s), (additional_pushed cfg (get LR s));
      above.
  - unfold tz_writes. destruct (_ && _); above.
Qed.

Lemma body_writes_late cfg s :
  body_writes cfg s = late_writes cfg s ++ entry_writes cfg s.
Proof.
  unfold body_writes, late_writes. rewrite <- !app_assoc. reflexivity.
Qed.

Lemma Forall_above_neq a W :
  a < info_addr -> Forall above_count W -> Forall (fun e => fst e <> a) W.
Proof.
  intros Ha H. eapply Forall_impl; [|exact H].
  unfold above_count. intros e He. layout. lia.
Qed.

(** ** The seal *)

Lemma load_byte_seal_other m x v y w k :
  x < count_addr -> y < count_addr -> count_addr <= k -> x mod 4 = 0 ->
  y mod 4 = 0 ->
  load_byte (store x v (store y w m)) k = load_byte m k.
Proof.
  intros Hx Hy Hk Mx My. layout.
  assert (K : 0 <= k mod 4 < 4) by (apply Z.mod_pos_bound; lia).
  assert (D : k - k mod 4 = 4 * (k / 4))
    by (rewrite (Z.div_mod k 4) at 1 by lia; lia).
  assert (Dx : x = 4 * (x / 4))
    by (rewrite (Z.div_mod x 4) at 1 by lia; lia).
  assert (Dy : y = 4 * (y / 4))
    by (rewrite (Z.div_mod y 4) at 1 by lia; lia).
  rewrite !load_byte_store_other by lia. reflexivity.
Qed.

(** Sealing a record makes it valid. *)
Lemma sealed_valid m : ARM_FaultOccurred (replay (seal_writes m) m) = 1.
Proof.
  apply occurred_true_iff. split; [reflexivity|].
  change (Field.crc32 (replay (seal_writes m) m))
    with (CalcCRC32 m ARM_FAULT_CRC32_INIT_VAL crc_data_ptr crc_data_len
            ARM_FAULT_CRC32_POLYNOM).
  apply CalcCRC32_reads_range_cells.
  intros i Hi. symmetry.
  apply load_byte_seal_other; try reflexivity. apply Hi.
Qed.

Lemma ARM_FaultSave_fi cfg s :
  fi (ARM_FaultSave cfg s) = replay (capture_writes cfg s) (fi s).
Proof. apply ARM_FaultSave_extends. Qed.

Lemma ARM_FaultSave_sealed cfg s :
  ARM_FaultOccurred (fi (ARM_FaultSave cfg s)) = 1.
Proof.
  rewrite ARM_FaultSave_fi. unfold capture_writes. rewrite replay_app.
  apply sealed_valid.
Qed.

(** The counter after a capture. *)
Lemma count_after_capture cfg s :
  Field.count (fi (ARM_FaultSave cfg s)) = wrap32 (Field.count (fi s) + 1).
Proof.
  rewrite ARM_FaultSave_fi. unfold capture_writes, Field.count.
  rewrite body_writes_late, !replay_app.
  rewrite load_replay_skip
    by (repeat apply Forall_cons; try apply Forall_nil; cbn [fst]; layout; lia).
  rewrite load_replay_skip
    by (apply Forall_above_neq; [reflexivity|apply late_writes_above]).
  reflexivity.
Qed.

(** ** The record a capture leaves *)

Lemma load_seal_other m' m a :
  count_addr <= a -> load (replay (seal_writes m') m) a = load m a.
Proof.
  intros H. apply load_replay_skip.
  repeat apply Forall_cons; try apply Forall_nil; cbn [fst]; layout; lia.
Qed.

(** A payload cell after the capture is that cell after the stores that
    precede the seal. *)
Lemma ARM_FaultSave_payload cfg s a :
  count_addr <= a ->
  load (fi (ARM_FaultSave cfg s)) a = load (replay (body_writes cfg s) (fi s)) a.
Proof.
  intros H. rewrite ARM_FaultSave_fi. unfold capture_writes.
  rewrite replay_app. apply load_seal_other, H.
Qed.

Lemma info_at_tz cfg s W m :
  load (replay W m) info_addr = info_val cfg ->
  load (replay (tz_writes cfg (ns_alias cfg s) (info_val cfg) ++ W) m) info_addr
  = info_after_tz cfg s.
Proof.
  intros H. rewrite info_after_tz_writes, H. reflexivity.
Qed.

Lemma info_at_ctx cfg s lr b sp W m :
  load (replay W m) info_addr = info_after_tz cfg s ->
  load (replay (ctx_writes cfg (stack_invalid_b cfg s) lr b sp
                           (info_after_tz cfg s) ++ W) m) info_addr
  = info_after_ctx cfg s.
Proof.
  intros H. rewrite info_after_ctx_writes, H. reflexivity.
Qed.

Lemma info_at_lim cfg s lr sr x W m :
  load (replay W m) info_addr = info_after_ctx cfg s ->
  load (replay (lim_writes cfg (ns_alias cfg s) sr (info_after_ctx cfg s) ++
                exc_writes (ns_alias cfg s) lr sr x ++ W) m) info_addr
  = info_after_lim cfg s.
Proof.
  intros H. rewrite app_assoc, info_after_live_writes, H. reflexivity.
Qed.

Lemma info_at_fault cfg s ns b W m :
  load (replay W m) info_addr = info_after_lim cfg s ->
  load (replay (fault_writes cfg ns b (info_after_lim cfg s) ++ W) m) info_addr
  = info_after_fault cfg s.
Proof.
  intros H. unfold fault_writes, info_after_fault, secure_writes, ras_writes,
    info_after_ras.
  destruct (ARM_FAULT_FAULT_REGS_EXIST cfg); [|exact H].
  destruct (ARM_FAULT_ARCH_ARMV8x_M_MAIN cfg && ARM_FAULT_TZ_SECURE cfg);
    [reflexivity|].
  destruct (ARM_FAULT_ARCH_ARMV8_1M_MAIN cfg); reflexivity.
Qed.

(** [info] at the end of the routine. *)
Lemma ARM_FaultSave_info cfg s :
  Field.info (fi (ARM_FaultSave cfg s)) = info_after_fault cfg s.
Proof.
  unfold Field.info. rewrite ARM_FaultSave_payload by (layout; lia).
  unfold body_writes.
  apply info_at_fault, info_at_lim, info_at_ctx, info_at_tz. reflexivity.
Qed.

(** The bits of [info] above the build-time part start clear. *)
Lemma testbit_b2z_shiftl b n k :
  0 <= n < k -> Z.testbit (Z.shiftl (Z.b2z b) n) k = false.
Proof.
  intros H. rewrite Z.shiftl_spec by lia.
  destruct b; cbn [Z.b2z]; [|apply Z.bits_0].
  change 1 with (2 ^ 0). rewrite Z.pow2_bits_eqb by lia.
  apply Z.eqb_neq. lia.
Qed.

Lemma testbit_small x n k : 0 <= x < 2 ^ n -> 0 <= n <= k -> Z.testbit x k = false.
Proof.
  intros Hx Hk. rewrite <- (Z.mod_small x (2 ^ n)) by exact Hx.
  apply Z.mod_pow2_bits_high. lia.
Qed.

Lemma info_val_high_bits cfg k :
  version_ok cfg -> 20 <= k -> Z.testbit (info_val cfg) k = false.
Proof.
  intros (HM & Hm) Hk. unfold info_val.
  rewrite !Z.lor_spec, !testbit_b2z_shiftl by lia.
  rewrite (testbit_small _ 8 k) by (change (2 ^ 8) with 256; lia).
  rewrite Z.shiftl_spec by lia.
  rewrite (testbit_small _ 8 (k - 8)) by (change (2 ^ 8) with 256; lia).
  reflexivity.
Qed.

Lemma testbit_mask n k :
  0 <= n -> 0 <= k -> Z.testbit (Z.shiftl 1 n) k = (n =? k).
Proof.
  intros Hn Hk. rewrite Z.shiftl_1_l. apply Z.pow2_bits_eqb. exact Hn.
Qed.

Ltac info_bits :=
  cbv [info_after_fault info_after_ras info_after_core info_after_lim
       info_after_ctx info_after_tz info_tz_fault_mode_msk
       info_state_context_msk info_limit_regs_msk info_fault_regs_msk
       info_secure_fault_regs_msk info_ras_fault_reg_msk];
  repeat match goal with
         | |- context [if ?c then _ else _] => destruct c eqn:?
         end;
  rewrite ?Z.lor_spec, ?testbit_mask by lia;
  rewrite ?info_val_high_bits by (assumption || lia);
  try reflexivity.

(** The six dynamic flags of [info] record exactly what was captured. *)
Lemma info_after_fault_bits cfg s :
  version_ok cfg ->
  let i := info_after_fault cfg s in
  Z.testbit i 20 = ARM_FAULT_TZ_SECURE cfg && negb (ns_alias cfg s) /\
  Z.testbit i 21 = negb (stack_invalid_b cfg s) /\
  Z.testbit i 22 = limits_stored cfg (ns_alias cfg s) /\
  Z.testbit i 23 = ARM_FAULT_FAULT_REGS_EXIST cfg /\
  Z.testbit i 24 = ARM_FAULT_FAULT_REGS_EXIST cfg &&
                   (ARM_FAULT_ARCH_ARMV8x_M_MAIN cfg && ARM_FAULT_TZ_SECURE cfg) /\
  Z.testbit i 25 = ARM_FAULT_FAULT_REGS_EXIST cfg &&
                   ARM_FAULT_ARCH_ARMV8_1M_MAIN cfg.
Proof.
  intros V. cbv zeta.
  repeat split; info_bits.
Qed.

(** ** Which cells each section stores into *)

Lemma load_replay_app_skip W W' m a :
  Forall (fun e => fst e <> a) W ->
  load (replay (W ++ W') m) a = load (replay W' m) a.
Proof. intros H. rewrite replay_app. apply load_replay_skip, H. Qed.

Lemma load_replay_cong W m m' a :
  load m a = load m' a -> load (replay W m) a = load (replay W m') a.
Proof.
  intros H. induction W as [|[x v] W IH]; [exact H|].
  cbn [replay fold_right fst snd] in *. unfold load, store in *.
  destruct (a =? x); [reflexivity|exact IH].
Qed.

Ltac addrs :=
  repeat first [apply Forall_nil | apply Forall_cons | apply Forall_app_intro];
  cbn [fst]; layout; lia.

Lemma fault_writes_addrs cfg ns b i :
  Forall (fun e => fst e = info_addr \/
                   csfr_reg_addr <= fst e < IntegritySignature_addr)
         (fault_writes cfg ns b i).
Proof.
  unfold fault_writes, secure_writes, ras_writes, core_fault_writes.
  destruct (ARM_FAULT_FAULT_REGS_EXIST cfg),
           (ARM_FAULT_ARCH_ARMV8x_M_MAIN cfg && ARM_FAULT_TZ_SECURE cfg),
           (ARM_FAULT_ARCH_ARMV8_1M_MAIN cfg); addrs.
Qed.

Lemma lim_writes_addrs cfg ns sr i :
  Forall (fun e => fst e = info_addr \/
                   EXC_xPSR_addr <= fst e < csfr_reg_addr)
         (lim_writes cfg ns sr i).
Proof. unfold lim_writes. destruct (limits_stored cfg ns); addrs. Qed.

Lemma exc_writes_addrs ns lr sr x :
  Forall (fun e => fst e = info_addr \/
                   EXC_xPSR_addr <= fst e < csfr_reg_addr)
         (exc_writes ns lr sr x).
Proof. unfold exc_writes. addrs. Qed.

Lemma ctx_writes_addrs cfg inv lr b sp i :
  Forall (fun e => fst e = info_addr \/
                   r0_addr <= fst e < EXC_xPSR_addr \/
                   fst e = IntegritySignature_addr)
         (ctx_writes cfg inv lr b sp i).
Proof.
  unfold ctx_writes, basic_writes, additional_writes.
  destruct inv, (additional_pushed cfg lr); addrs.
Qed.

Lemma tz_writes_addrs cfg ns i :
  Forall (fun e => fst e = info_addr) (tz_writes cfg ns i).
Proof. unfold tz_writes. destruct (_ && _); addrs. Qed.

(** Skip the stores of a section that cannot reach the cell read. *)
Ltac skip_section L :=
  rewrite load_replay_app_skip
    by (eapply Forall_impl; [|apply L]; cbv beta;
        let e := fresh "e" in let He := fresh "He" in
        intros e He; layout; lia).

Ltac fields :=
  unfold Field.R0, Field.R1, Field.R2, Field.R3, Field.R4, Field.R5, Field.R6,
    Field.R7, Field.R8, Field.R9, Field.R10, Field.R11, Field.R12, Field.LR,
    Field.ReturnAddress, Field.xPSR, Field.IntegritySignature, Field.EXC_xPSR,
    Field.EXC_RETURN, Field.MSP, Field.PSP, Field.MSPLIM, Field.PSPLIM,
    Field.CFSR, Field.HFSR, Field.DFSR, Field.MMFAR, Field.BFAR, Field.AFSR,
    Field.RFSR, Field.SFSR, Field.SFAR in *.

(** The cells of the stacked frame hold what [ctx_writes] put there, over
    the early stores. *)
Lemma frame_cell cfg s a :
  r0_addr <= a < EXC_xPSR_addr \/ a = IntegritySignature_addr ->
  load (replay (body_writes cfg s) (fi s)) a =
  load (replay (ctx_writes cfg (stack_invalid_b cfg s) (get LR s) (bus s)
                           (stacked_sp cfg s) (info_after_tz cfg s) ++
                early_writes cfg s ++ wipe_writes) (fi s)) a.
Proof.
  intros Ha. unfold body_writes, entry_writes.
  skip_section fault_writes_addrs.
  skip_section lim_writes_addrs.
  skip_section exc_writes_addrs.
  rewrite (replay_app (ctx_writes _ _ _ _ _ _)).
  rewrite (replay_app (ctx_writes _ _ _ _ _ _) (early_writes cfg s ++ _)).
  apply load_replay_cong.
  skip_section tz_writes_addrs. reflexivity.
Qed.

(** The cells of the live context hold what [lim_writes] and [exc_writes]
    put there. *)
Lemma live_cell cfg s a :
  EXC_xPSR_addr <= a < csfr_reg_addr ->
  exists W,
    load (replay (body_writes cfg s) (fi s)) a =
    load (replay (lim_writes cfg (ns_alias cfg s) (sregs s)
                             (info_after_ctx cfg s) ++
                  exc_writes (ns_alias cfg s) (get LR s) (sregs s)
                             (captured_xpsr cfg s) ++ W)
                 (fi s)) a.
Proof.
  intros Ha. eexists. unfold body_writes.
  skip_section fault_writes_addrs. reflexivity.
Qed.

Lemma stack_invalid_b_true cfg s :
  stack_invalid cfg s -> stack_invalid_b cfg s = true.
Proof.
  unfold stack_invalid, stack_invalid_b.
  intros [H|(F & H)].
  - rewrite H. reflexivity.
  - rewrite F. apply Z.eqb_neq in H. rewrite H. apply orb_true_r.
Qed.

(** The live context, whatever the stack. *)
Lemma live_payload cfg s :
  let m := replay (body_writes cfg s) (fi s) in
  let ns := ns_alias cfg s in
  (Field.EXC_xPSR m = captured_xpsr cfg s /\
   Field.EXC_RETURN m = get LR s /\
   Field.MSP m = sregs s (if ns then MSP_NS else MSP) /\
   Field.PSP m = sregs s (if ns then PSP_NS else PSP)) /\
  (limits_stored cfg ns = true ->
   Field.MSPLIM m = sregs s (if ns then MSPLIM_NS else MSPLIM) /\
   Field.PSPLIM m = sregs s (if ns then PSPLIM_NS else PSPLIM)).
Proof.
  cbv zeta. fields.
  destruct (live_cell cfg s EXC_xPSR_addr) as (W0 & ->); [layout; lia|].
  destruct (live_cell cfg s (EXC_xPSR_addr + 4)) as (W1 & ->); [layout; lia|].
  destruct (live_cell cfg s (EXC_xPSR_addr + 8)) as (W2 & ->); [layout; lia|].
  destruct (live_cell cfg s (EXC_xPSR_addr + 12)) as (W3 & ->); [layout; lia|].
  destruct (live_cell cfg s (EXC_xPSR_addr + 16)) as (W4 & ->); [layout; lia|].
  destruct (live_cell cfg s (EXC_xPSR_addr + 20)) as (W5 & ->); [layout; lia|].
  unfold lim_writes.
  destruct (limits_stored cfg (ns_alias cfg s)), (ns_alias cfg s);
    repeat split; intros; try discriminate; reflexivity.
Qed.

(** The fault registers, whatever the stack. *)
Lemma fault_payload cfg s :
  let m := replay (body_writes cfg s) (fi s) in
  (ARM_FAULT_FAULT_REGS_EXIST cfg = true ->
   Field.CFSR m = load (bus s) (scb_base cfg s + cfsr_ofs) /\
   Field.HFSR m = load (bus s) (scb_base cfg s + hfsr_ofs) /\
   Field.DFSR m = load (bus s) (scb_base cfg s + dfsr_ofs) /\
   Field.MMFAR m = load (bus s) (scb_base cfg s + mmfar_ofs) /\
   Field.BFAR m = load (bus s) (scb_base cfg s + bfar_ofs) /\
   Field.AFSR m = load (bus s) (scb_base cfg s + afsr_ofs)) /\
  (ARM_FAULT_FAULT_REGS_EXIST cfg = true ->
   ARM_FAULT_ARCH_ARMV8_1M_MAIN cfg = true ->
   Field.RFSR m = load (bus s) (scb_base cfg s + rfsr_ofs)) /\
  (ARM_FAULT_FAULT_REGS_EXIST cfg = true ->
   ARM_FAULT_ARCH_ARMV8x_M_MAIN cfg = true ->
   ARM_FAULT_TZ_SECURE cfg = true ->
   Field.SFSR m = load (bus s) (SCB_BASE + sfsr_ofs) /\
   Field.SFAR m = load (bus s) (SCB_BASE + sfar_ofs)).
Proof.
  cbv zeta. fields. unfold body_writes.
  match goal with
  | |- context [fault_writes _ _ _ _ ++ ?W] => generalize W
  end.
  intros W. unfold fault_writes, secure_writes, ras_writes, core_fault_writes,
    scb_base.
  destruct (ARM_FAULT_FAULT_REGS_EXIST cfg),
           (ARM_FAULT_ARCH_ARMV8x_M_MAIN cfg),
           (ARM_FAULT_TZ_SECURE cfg),
           (ARM_FAULT_ARCH_ARMV8_1M_MAIN cfg), (ns_alias cfg s);
    cbn [andb];
    repeat split; intros; try discriminate; reflexivity.
Qed.

(** With an invalid stack the cells of the stacked frame stay as the wipe
    left them. *)
Lemma invalid_stack_frame cfg s :
  stack_invalid_b cfg s = true ->
  let m := replay (body_writes cfg s) (fi s) in
  Field.R0 m = 0 /\ Field.R1 m = 0 /\ Field.R2 m = 0 /\ Field.R3 m = 0 /\
  Field.R12 m = 0 /\ Field.LR m = 0 /\ Field.ReturnAddress m = 0 /\
  Field.xPSR m = 0 /\ Field.IntegritySignature m = 0.
Proof.
  intros Hinv. cbv zeta. fields.
  rewrite !frame_cell by (layout; lia).
  rewrite Hinv. repeat split; reflexivity.
Qed.

Lemma invalid_stack_payload cfg s :
  stack_invalid_b cfg s = true ->
  let m := replay (body_writes cfg s) (fi s) in
  let ns := ns_alias cfg s in
  (Field.R0 m = 0 /\ Field.R1 m = 0 /\ Field.R2 m = 0 /\ Field.R3 m = 0 /\
   Field.R12 m = 0 /\ Field.LR m = 0 /\ Field.ReturnAddress m = 0 /\
   Field.xPSR m = 0 /\ Field.IntegritySignature m = 0) /\
  (Field.EXC_xPSR m = captured_xpsr cfg s /\
   Field.EXC_RETURN m = get LR s /\
   Field.MSP m = sregs s (if ns then MSP_NS else MSP) /\
   Field.PSP m = sregs s (if ns then PSP_NS else PSP)) /\
  (limits_stored cfg ns = true ->
   Field.MSPLIM m = sregs s (if ns then MSPLIM_NS else MSPLIM) /\
   Field.PSPLIM m = sregs s (if ns then PSPLIM_NS else PSPLIM)) /\
  (ARM_FAULT_FAULT_REGS_EXIST cfg = true ->
   Field.CFSR m = load (bus s) (scb_base cfg s + cfsr_ofs) /\
   Field.HFSR m = load (bus s) (scb_base cfg s + hfsr_ofs) /\
   Field.DFSR m = load (bus s) (scb_base cfg s + dfsr_ofs) /\
   Field.MMFAR m = load (bus s) (scb_base cfg s + mmfar_ofs) /\
   Field.BFAR m = load (bus s) (scb_base cfg s + bfar_ofs) /\
   Field.AFSR m = load (bus s) (scb_base cfg s + afsr_ofs)) /\
  (ARM_FAULT_FAULT_REGS_EXIST cfg = true ->
   ARM_FAULT_ARCH_ARMV8_1M_MAIN cfg = true ->
   Field.RFSR m = load (bus s) (scb_base cfg s + rfsr_ofs)) /\
  (ARM_FAULT_FAULT_REGS_EXIST cfg = true ->
   ARM_FAULT_ARCH_ARMV8x_M_MAIN cfg = true ->
   ARM_FAULT_TZ_SECURE cfg = true ->
   Field.SFSR m = load (bus s) (SCB_BASE + sfsr_ofs) /\
   Field.SFAR m = load (bus s) (SCB_BASE + sfar_ofs)).
Proof.
  intros Hinv. cbv zeta.
  pose proof (invalid_stack_frame cfg s Hinv) as F.
  pose proof (live_payload cfg s) as (L1 & L2).
  pose proof (fault_payload cfg s) as (F1 & F2 & F3).
  cbv zeta in *.
  split; [exact F|]. split; [exact L1|]. split; [exact L2|].
  split; [exact F1|]. split; [exact F2|exact F3].
Qed.

(** ** The fault counter *)

(** C2: a capture leaves in [count] the value it read at entry plus one
    (32-bit addition), although the wipe in between zeroes every word of
    the record, [count] included: the old value waits in R3. *)
Theorem ARM_FaultSave_count cfg s :
  let t := clear_ARM_FaultInfo (read_count s) in
  map (load (fi t)) (map (fun i => 4 * Z.of_nat i) (List.seq 0 36))
  = repeat 0 36 /\
  get R3 t = Field.count (fi s) /\
  Field.count (fi (ARM_FaultSave cfg s)) = wrap32 (Field.count (fi s) + 1).
Proof.
  cbv zeta. split; [reflexivity|]. split; [reflexivity|].
  apply count_after_capture.
Qed.

Lemma iter_count cfg s n :
  0 <= Field.count (fi s) ->
  Field.count (fi s) + Z.of_nat n < 2 ^ 32 ->
  Field.count (fi (Nat.iter n (ARM_FaultSave cfg) s))
  = Field.count (fi s) + Z.of_nat n.
Proof.
  intros H0. induction n as [|n IH]; intros Hn.
  - change (Nat.iter 0 (ARM_FaultSave cfg) s) with s. lia.
  - change (Nat.iter (S n) (ARM_FaultSave cfg) s)
      with (ARM_FaultSave cfg (Nat.iter n (ARM_FaultSave cfg) s)).
    rewrite count_after_capture, IH by lia.
    rewrite wrap32_small; lia.
Qed.

(** C9: starting from a counter [c], [n] captures in a row leave [c + n] as
    long as that fits 32 bits, so each capture below the maximum strictly
    increases the counter; [ARM_FaultClear] sets it to zero. *)
Theorem count_increases_until_wrap cfg s m :
  (forall n, 0 <= Field.count (fi s) ->
             Field.count (fi s) + Z.of_nat n < 2 ^ 32 ->
             Field.count (fi (Nat.iter n (ARM_FaultSave cfg) s))
             = Field.count (fi s) + Z.of_nat n) /\
  (0 <= Field.count (fi s) < 2 ^ 32 - 1 ->
   Field.count (fi s) < Field.count (fi (ARM_FaultSave cfg s))) /\
  Field.count (ARM_FaultClear m) = 0.
Proof.
  split; [intros n; apply iter_count|]. split; [|reflexivity].
  intros H. rewrite count_after_capture, wrap32_small; lia.
Qed.

Lemma count_increases_until_wrap_witness :
  Field.count (fi (Nat.iter 3 (ARM_FaultSave cfg_v7m) s_zero_sp)) = 0 + 3 /\
  Field.count (fi s_zero_sp)
  < Field.count (fi (ARM_FaultSave cfg_v7m s_zero_sp)).
Proof.
  split.
  - apply (proj1 (count_increases_until_wrap cfg_v7m s_zero_sp (fun _ => 0)) 3%nat);
      vm_compute; congruence.
  - apply (proj1 (proj2 (count_increases_until_wrap cfg_v7m s_zero_sp
                           (fun _ => 0))));
      vm_compute; intuition congruence.
Defined.

Lemma count_wraps_counterexample :
  Field.count (fi s_count_max) = 0xFFFFFFFF /\
  Field.count (fi (ARM_FaultSave cfg_v7m s_count_max)) = 0.
Proof. split; vm_compute; reflexivity. Qed.

(** ** The stacking context *)

(** C3: EXC_RETURN.SPSEL selects MSP (0) or PSP (1); on a Secure build
    EXC_RETURN.S = 0 selects the Non-Secure alias of that stack pointer and
    sets bit 0 of R7; the [tz_fault_mode] bit is OR'ed into [info] on a
    Secure build when that flag is clear (fault taken from the Secure
    state), and [info] is left as it is otherwise. *)
Theorem stacking_context_resolved cfg s :
  let t := tz_fault_mode cfg (r6_points_to_stack cfg s) in
  let ns := ARM_FAULT_TZ_SECURE cfg && negb (Z.testbit (get LR s) 6) in
  (Z.testbit (get LR s) 2 = false ->
   get R6 t = sregs s (if ns then MSP_NS else MSP)) /\
  (Z.testbit (get LR s) 2 = true ->
   get R6 t = sregs s (if ns then PSP_NS else PSP)) /\
  get R7 t = Z.b2z ns /\
  Field.info (fi t) =
  (if ARM_FAULT_TZ_SECURE cfg && negb ns
   then Z.lor (Field.info (fi s)) info_tz_fault_mode_msk
   else Field.info (fi s)).
Proof.
  cbv zeta.
  destruct (stack_resolved cfg s) as ((_ & F & _) & H6 & H7).
  unfold stacked_sp, stacked_sp_reg, ns_alias in *.
  repeat split.
  - intros B. rewrite H6, B. reflexivity.
  - intros B. rewrite H6, B. reflexivity.
  - exact H7.
  - unfold Field.info. rewrite F. unfold tz_writes, ns_alias.
    destruct (ARM_FAULT_TZ_SECURE cfg &&
              negb (ARM_FAULT_TZ_SECURE cfg && negb (Z.testbit (get LR s) 6)));
      reflexivity.
Qed.

Lemma stacking_context_resolved_witness :
  get R6 (tz_fault_mode cfg_v8m_secure
            (r6_points_to_stack cfg_v8m_secure s_nonsecure_fault))
  = 0x20001000.
Proof.
  apply (proj1 (proj2 (stacking_context_resolved cfg_v8m_secure
                         s_nonsecure_fault))).
  reflexivity.
Defined.

Lemma nonsecure_alias_without_info_bit_counterexample :
  let t := tz_fault_mode cfg_v8m_secure
             (r6_points_to_stack cfg_v8m_secure
                (entry_section cfg_v8m_secure s_nonsecure_fault)) in
  get R7 t = 1 /\
  Field.info (fi t) = info_val cfg_v8m_secure /\
  Z.testbit (Field.info (fi t)) 20 = false /\
  Z.testbit (Field.info (fi (ARM_FaultSave cfg_v8m_secure s_nonsecure_fault)))
            20 = false.
Proof. cbv zeta. repeat split; vm_compute; reflexivity. Qed.

(** ** An invalid stack *)

(** C4: when the selected stack pointer is zero, or the fault registers
    exist and CFSR shows a stacking error, the stacked frame is not
    copied (its fields and the integrity signature stay zero, the
    state-context flag stays clear), while the live context (xPSR,
    EXC_RETURN, both stack pointers), the limit registers and the fault
    registers are stored with their flags wherever the build has them, and
    the record is sealed: the validity check accepts it.  The xPSR stored
    is the one [mrs] reads at that point: Z and C set and N clear by the
    test of the stack flag that has just skipped the copy
    ([lsrs r0, r7, #2]), V clear by [cmp r6, #0], the exception number and
    the Q and GE bits as the processor holds them, the execution-state bits
    reading as zero. *)
Theorem invalid_stack_capture cfg s :
  version_ok cfg ->
  stack_invalid cfg s ->
  let m := fi (ARM_FaultSave cfg s) in
  let ns := ns_alias cfg s in
  Z.testbit (Field.info m) 21 = false /\
  (Field.R0 m = 0 /\ Field.R1 m = 0 /\ Field.R2 m = 0 /\ Field.R3 m = 0 /\
   Field.R12 m = 0 /\ Field.LR m = 0 /\ Field.ReturnAddress m = 0 /\
   Field.xPSR m = 0 /\ Field.IntegritySignature m = 0) /\
  (Field.EXC_xPSR m =
   Z.lor (apsr_nzcv false true true false) (Z.land (psr s) xpsr_mrs_msk) /\
   Field.EXC_RETURN m = get LR s /\
   Field.MSP m = sregs s (if ns then MSP_NS else MSP) /\
   Field.PSP m = sregs s (if ns then PSP_NS else PSP)) /\
  (limits_stored cfg ns = true ->
   Z.testbit (Field.info m) 22 = true /\
   Field.MSPLIM m = sregs s (if ns then MSPLIM_NS else MSPLIM) /\
   Field.PSPLIM m = sregs s (if ns then PSPLIM_NS else PSPLIM)) /\
  (ARM_FAULT_FAULT_REGS_EXIST cfg = true ->
   Z.testbit (Field.info m) 23 = true /\
   Field.CFSR m = load (bus s) (scb_base cfg s + cfsr_ofs) /\
   Field.HFSR m = load (bus s) (scb_base cfg s + hfsr_ofs) /\
   Field.DFSR m = load (bus s) (scb_base cfg s + dfsr_ofs) /\
   Field.MMFAR m = load (bus s) (scb_base cfg s + mmfar_ofs) /\
   Field.BFAR m = load (bus s) (scb_base cfg s + bfar_ofs) /\
   Field.AFSR m = load (bus s) (scb_base cfg s + afsr_ofs)) /\
  (ARM_FAULT_FAULT_REGS_EXIST cfg = true ->
   ARM_FAULT_ARCH_ARMV8_1M_MAIN cfg = true ->
   Z.testbit (Field.info m) 25 = true /\
   Field.RFSR m = load (bus s) (scb_base cfg s + rfsr_ofs)) /\
  (ARM_FAULT_FAULT_REGS_EXIST cfg = true ->
   ARM_FAULT_ARCH_ARMV8x_M_MAIN cfg = true ->
   ARM_FAULT_TZ_SECURE cfg = true ->
   Z.testbit (Field.info m) 24 = true /\
   Field.SFSR m = load (bus s) (SCB_BASE + sfsr_ofs) /\
   Field.SFAR m = load (bus s) (SCB_BASE + sfar_ofs)) /\
  ARM_FaultOccurred m = 1.
Proof.
  intros V Hinv. apply stack_invalid_b_true in Hinv. cbv zeta.
  destruct (info_after_fault_bits cfg s V) as (_ & B21 & B22 & B23 & B24 & B25).
  destruct (invalid_stack_payload cfg s Hinv)
    as (P0 & P1 & P2 & P3 & P4 & P5).
  unfold captured_xpsr, flags_at_mrs in P1. rewrite Hinv in P1.
  unfold Field.R0, Field.R1, Field.R2, Field.R3, Field.R12, Field.LR,
    Field.ReturnAddress, Field.xPSR, Field.IntegritySignature, Field.EXC_xPSR,
    Field.EXC_RETURN, Field.MSP, Field.PSP, Field.MSPLIM, Field.PSPLIM,
    Field.CFSR, Field.HFSR, Field.DFSR, Field.MMFAR, Field.BFAR, Field.AFSR,
    Field.RFSR, Field.SFSR, Field.SFAR in *.
  rewrite ARM_FaultSave_info.
  rewrite !ARM_FaultSave_payload by (layout; lia).
  rewrite B21, B22, B23, B24, B25, Hinv.
  split; [reflexivity|]. split; [exact P0|]. split; [exact P1|].
  split; [intros L; split; [exact L|exact (P2 L)]|].
  split; [intros F; split; [exact F|exact (P3 F)]|].
  split; [intros F A; split; [rewrite F, A; reflexivity|exact (P4 F A)]|].
  split; [intros F A T; split; [rewrite F, A, T; reflexivity|exact (P5 F A T)]|].
  apply ARM_FaultSave_sealed.
Qed.

Lemma invalid_stack_capture_witness :
  Z.testbit (Field.info (fi (ARM_FaultSave cfg_v7m s_zero_sp))) 21 = false /\
  Field.EXC_xPSR (fi (ARM_FaultSave cfg_v7m s_zero_sp)) = 0x60000003.
Proof.
  assert (V : version_ok cfg_v7m) by (unfold version_ok; cbn; lia).
  assert (I : stack_invalid cfg_v7m s_zero_sp) by (left; reflexivity).
  split.
  - apply (invalid_stack_capture cfg_v7m s_zero_sp V I).
  - apply (invalid_stack_capture cfg_v7m s_zero_sp V I).
Defined.

(** ** The order of the seal *)

Lemma Forall_skipn {A} (P : A -> Prop) k l : Forall P l -> Forall P (skipn k l).
Proof.
  revert l. induction k as [|k IH]; intros l H; [exact H|].
  destruct H; [constructor|]. cbn [skipn]. auto.
Qed.

Lemma early_writes_not_magic cfg s :
  Forall (fun e => fst e <> magic_number_addr) (early_writes cfg s).
Proof.
  unfold early_writes.
  repeat apply Forall_cons; try apply Forall_nil; cbn [fst]; layout; lia.
Qed.

Lemma wiped_magic m : load (replay wipe_writes m) magic_number_addr = 0.
Proof. reflexivity. Qed.

(** C5: the last two stores of a capture are [crc32], then [magic_number];
    in every state of the record from the end of the wipe up to, but not
    including, the store of the magic number, the validity check returns
    0. *)
Theorem magic_number_stored_last cfg s :
  exists mid crc,
    log (ARM_FaultSave cfg s) =
    (magic_number_addr, ARM_FAULT_MAGIC_NUMBER) :: (crc32_addr, crc) :: mid ++
    wipe_writes ++ log s /\
    fi (ARM_FaultSave cfg s) =
    replay ((magic_number_addr, ARM_FAULT_MAGIC_NUMBER) :: (crc32_addr, crc)
              :: mid ++ wipe_writes) (fi s) /\
    forall k,
      ARM_FaultOccurred
        (replay (skipn k ((crc32_addr, crc) :: mid) ++ wipe_writes) (fi s)) = 0.
Proof.
  exists (late_writes cfg s ++ early_writes cfg s).
  exists (CalcCRC32 (replay (body_writes cfg s) (fi s)) ARM_FAULT_CRC32_INIT_VAL
            crc_data_ptr crc_data_len ARM_FAULT_CRC32_POLYNOM).
  destruct (ARM_FaultSave_extends cfg s) as (L & F & _).
  assert (W : capture_writes cfg s =
              (magic_number_addr, ARM_FAULT_MAGIC_NUMBER)
                :: (crc32_addr,
                    CalcCRC32 (replay (body_writes cfg s) (fi s))
                      ARM_FAULT_CRC32_INIT_VAL crc_data_ptr crc_data_len
                      ARM_FAULT_CRC32_POLYNOM)
                :: (late_writes cfg s ++ early_writes cfg s) ++ wipe_writes).
  { unfold capture_writes, seal_writes. rewrite body_writes_late.
    unfold entry_writes. rewrite <- !app_assoc. reflexivity. }
  split; [|split].
  - rewrite L, W. cbn [app]. rewrite <- !app_assoc. reflexivity.
  - rewrite F, W. reflexivity.
  - intros k. apply ARM_FaultOccurred_bad_magic.
    unfold Field.magic_number. rewrite replay_app.
    rewrite load_replay_skip, wiped_magic; [discriminate|].
    apply Forall_skipn. apply Forall_cons; [discriminate|].
    apply Forall_app_intro; [|apply early_writes_not_magic].
    apply Forall_above_neq; [reflexivity|apply late_writes_above].
Qed.

(** ** The checksum of the assembly *)

(** C6: the loop of the third block leaves in R0 what [CalcCRC32] returns
    for the same initial value, byte range and polynomial; after a capture
    the checksum recomputed over the payload is the stored [crc32] and the
    validity check returns 1. *)
Theorem crc32_asm_is_CalcCRC32 :
  (forall init_val data_ptr data_len polynom s,
      0 <= data_len < 2 ^ 32 ->
      0 <= data_ptr -> data_ptr + data_len <= 2 ^ 32 ->
      get R0 (crc32_asm init_val data_ptr data_len polynom s)
      = CalcCRC32 (fi s) init_val data_ptr data_len polynom) /\
  (forall cfg s,
      let m := fi (ARM_FaultSave cfg s) in
      CalcCRC32 m ARM_FAULT_CRC32_INIT_VAL crc_data_ptr crc_data_len
                ARM_FAULT_CRC32_POLYNOM = Field.crc32 m /\
      ARM_FaultOccurred m = 1).
Proof.
  split.
  - intros. apply crc32_asm_spec; assumption.
  - intros cfg s. cbv zeta.
    pose proof (ARM_FaultSave_sealed cfg s) as V.
    split; [|exact V].
    apply occurred_true_iff in V. symmetry. apply V.
Qed.

Lemma crc32_asm_is_CalcCRC32_witness :
  get R0 (crc32_asm ARM_FAULT_CRC32_INIT_VAL crc_data_ptr crc_data_len
                    ARM_FAULT_CRC32_POLYNOM s_zero_sp)
  = CalcCRC32 (fi s_zero_sp) ARM_FAULT_CRC32_INIT_VAL crc_data_ptr
              crc_data_len ARM_FAULT_CRC32_POLYNOM.
Proof.
  apply (proj1 crc32_asm_is_CalcCRC32); vm_compute; intuition congruence.
Defined.

(** ** More on the CRC engine *)

Lemma CalcCRC32_while_app n1 : forall n2 m c p polynom,
  Z.of_nat (n1 + n2) < 2 ^ 32 ->
  CalcCRC32_while (n1 + n2) m c p (Z.of_nat (n1 + n2)) polynom =
  CalcCRC32_while n2 m
    (CalcCRC32_while n1 m c p (Z.of_nat n1) polynom)
    (p + Z.of_nat n1) (Z.of_nat n2) polynom.
Proof.
  induction n1 as [|n1 IH]; intros n2 m c p polynom H.
  - cbn [Nat.add CalcCRC32_while]. rewrite Z.add_0_r. reflexivity.
  - change (S n1 + n2)%nat with (S (n1 + n2)) in *.
    rewrite !CalcCRC32_while_S by lia. rewrite IH by lia.
    f_equal. lia.
Qed.

(** X1: the checksum of a range is the checksum of its second part started
    from the checksum of its first part. *)
Theorem CalcCRC32_chain m init_val data_ptr len1 len2 polynom :
  0 <= len1 -> 0 <= len2 -> len1 + len2 < 2 ^ 32 ->
  CalcCRC32 m init_val data_ptr (len1 + len2) polynom =
  CalcCRC32 m (CalcCRC32 m init_val data_ptr len1 polynom)
            (data_ptr + len1) len2 polynom.
Proof.
  intros H1 H2 H. unfold CalcCRC32.
  rewrite Z2Nat.inj_add by lia.
  rewrite <- (Z2Nat.id len1) at 2 4 5 by lia.
  rewrite <- (Z2Nat.id len2) at 2 4 by lia.
  rewrite <- Nat2Z.inj_add. apply CalcCRC32_while_app. lia.
Qed.

Lemma CalcCRC32_chain_witness :
  CalcCRC32 sealed_blank 0xFFFFFFFF 0 (4 + 4) 0x04C11DB7 =
  CalcCRC32 sealed_blank (CalcCRC32 sealed_blank 0xFFFFFFFF 0 4 0x04C11DB7)
            (0 + 4) 4 0x04C11DB7.
Proof. apply CalcCRC32_chain; lia. Defined.

(** X2: with a 32-bit initial value and polynomial the checksum is a 32-bit
    value. *)
Theorem CalcCRC32_range m init_val data_ptr data_len polynom :
  0 <= init_val < 2 ^ 32 -> 0 <= polynom < 2 ^ 32 ->
  0 <= data_len < 2 ^ 32 ->
  0 <= CalcCRC32 m init_val data_ptr data_len polynom < 2 ^ 32.
Proof.
  intros Hi Hp Hl. unfold CalcCRC32.
  rewrite <- (Z2Nat.id data_len) at 2 4 by lia.
  apply CalcCRC32_while_range; [exact Hp|lia|exact Hi].
Qed.

Lemma CalcCRC32_range_witness :
  0 <= CalcCRC32 sealed_blank 0xFFFFFFFF 8 136 0x04C11DB7 < 2 ^ 32.
Proof. apply CalcCRC32_range; lia. Defined.

(** X3: the checksum depends on the bytes of the range only. *)
Theorem CalcCRC32_reads_range_only m m' init_val data_ptr data_len polynom :
  0 <= data_len < 2 ^ 32 ->
  (forall i, data_ptr <= i < data_ptr + data_len ->
             load_byte m i = load_byte m' i) ->
  CalcCRC32 m init_val data_ptr data_len polynom =
  CalcCRC32 m' init_val data_ptr data_len polynom.
Proof.
  intros Hl Hm. unfold CalcCRC32.
  rewrite <- (Z2Nat.id data_len) at 2 4 by lia.
  apply CalcCRC32_while_ext; [lia|].
  intros i Hi. apply Hm. lia.
Qed.

Lemma CalcCRC32_reads_range_only_witness :
  CalcCRC32 sealed_blank 0xFFFFFFFF 8 136 0x04C11DB7 =
  CalcCRC32 (fun _ => 0) 0xFFFFFFFF 8 136 0x04C11DB7.
Proof.
  apply CalcCRC32_reads_range_only; [lia|].
  intros i Hi. unfold sealed_blank.
  apply load_byte_seal_other; try reflexivity. apply Hi.
Defined.

(** X4: with an odd polynomial, two memories that differ in exactly one
    byte of the range never have the same checksum. *)
Theorem CalcCRC32_detects_one_byte m m' init_val data_ptr data_len polynom k :
  0 <= init_val < 2 ^ 32 -> 0 <= polynom < 2 ^ 32 -> Z.odd polynom = true ->
  0 <= data_len < 2 ^ 32 ->
  data_ptr <= k < data_ptr + data_len ->
  load_byte m k <> load_byte m' k ->
  (forall i, data_ptr <= i < data_ptr + data_len -> i <> k ->
             load_byte m i = load_byte m' i) ->
  CalcCRC32 m init_val data_ptr data_len polynom <>
  CalcCRC32 m' init_val data_ptr data_len polynom.
Proof.
  intros Hi Hp Ho Hl Hk Hd Hm. unfold CalcCRC32.
  rewrite <- (Z2Nat.id data_len) at 2 4 by lia.
  apply CalcCRC32_while_one_byte with (k := k);
    try assumption; try lia.
  intros i Hr. apply Hm. lia.
Qed.

Lemma CalcCRC32_detects_one_byte_witness :
  CalcCRC32 sealed_blank 0xFFFFFFFF 8 136 0x04C11DB7 <>
  CalcCRC32 (flip_bit 8 0 sealed_blank) 0xFFFFFFFF 8 136 0x04C11DB7.
Proof.
  apply CalcCRC32_detects_one_byte with (k := 8);
    try reflexivity; try lia; try (vm_compute; intuition congruence).
  intros i Hi Hk. symmetry.
  apply load_byte_flip_bit_other; [reflexivity|lia|exact Hk].
Defined.

(** X5: with an odd polynomial, different 32-bit initial values give
    different checksums of the same bytes. *)
Theorem CalcCRC32_init_injective m c c' data_ptr data_len polynom :
  0 <= polynom < 2 ^ 32 -> Z.odd polynom = true ->
  0 <= data_len < 2 ^ 32 ->
  0 <= c < 2 ^ 32 -> 0 <= c' < 2 ^ 32 ->
  CalcCRC32 m c data_ptr data_len polynom =
  CalcCRC32 m c' data_ptr data_len polynom ->
  c = c'.
Proof.
  intros Hp Ho Hl Hc Hc'. unfold CalcCRC32.
  rewrite <- (Z2Nat.id data_len) at 2 4 by lia.
  apply CalcCRC32_while_inj_state; try assumption. lia.
Qed.

Lemma CalcCRC32_init_injective_witness : 0xFFFFFFFF = 0xFFFFFFFF.
Proof.
  apply (CalcCRC32_init_injective sealed_blank 0xFFFFFFFF 0xFFFFFFFF 8 136
           0x04C11DB7); try reflexivity; lia.
Defined.

(** ** A valid stack: the stacked frame *)












(** X8: when the version fields fit their 8 bits, the six dynamic flags of
    the final [info] tell exactly what was captured (Secure fault mode,
    state context, limit registers, fault registers, secure fault
    registers, RAS fault register) and the 20 low bits are those of the
    build-time value. *)
Theorem capture_info_flags cfg s :
  version_ok cfg ->
  let i := Field.info (fi (ARM_FaultSave cfg s)) in
  Z.testbit i 20 = ARM_FAULT_TZ_SECURE cfg && Z.testbit (get LR s) 6 /\
  Z.testbit i 21 = negb (stack_invalid_b cfg s) /\
  Z.testbit i 22 = limits_stored cfg (ns_alias cfg s) /\
  Z.testbit i 23 = ARM_FAULT_FAULT_REGS_EXIST cfg /\
  Z.testbit i 24 = ARM_FAULT_FAULT_REGS_EXIST cfg &&
                   (ARM_FAULT_ARCH_ARMV8x_M_MAIN cfg && ARM_FAULT_TZ_SECURE cfg) /\
  Z.testbit i 25 = ARM_FAULT_FAULT_REGS_EXIST cfg &&
                   ARM_FAULT_ARCH_ARMV8_1M_MAIN cfg /\
  Z.land i (Z.ones 20) = Z.land (info_val cfg) (Z.ones 20).
Proof.
  intros V. cbv zeta. rewrite ARM_FaultSave_info.
  destruct (info_after_fault_bits cfg s V) as (B20 & B21 & B22 & B23 & B24 & B25).
  repeat split; try assumption.
  - rewrite B20. unfold ns_alias.
    destruct (ARM_FAULT_TZ_SECURE cfg), (Z.testbit (get LR s) 6); reflexivity.
  - apply Z.bits_inj'. intros k Hk. rewrite !Z.land_spec.
    destruct (Z.ltb_spec k 20);
      [|rewrite Z.ones_spec_high, !andb_false_r by lia; reflexivity].
    f_equal.
    cbv [info_after_fault info_after_ras info_after_core info_after_lim
         info_after_ctx info_after_tz info_tz_fault_mode_msk
         info_state_context_msk info_limit_regs_msk info_fault_regs_msk
         info_secure_fault_regs_msk info_ras_fault_reg_msk].
    repeat match goal with
           | |- context [if ?c then _ else _] => destruct c
           end;
      rewrite ?Z.lor_spec, ?testbit_mask by lia;
      repeat match goal with
             | |- context [?a =? k] =>
                 replace (a =? k) with false by (symmetry; apply Z.eqb_neq; lia)
             end;
      rewrite ?orb_false_r; reflexivity.
Qed.

Lemma capture_info_flags_witness :
  Z.testbit (Field.info (fi (ARM_FaultSave cfg_v8m_secure s_valid_stack))) 20
  = ARM_FAULT_TZ_SECURE cfg_v8m_secure && Z.testbit (get LR s_valid_stack) 6.
Proof.
  apply (capture_info_flags cfg_v8m_secure s_valid_stack).
  unfold version_ok. cbn. lia.
Defined.

(** ** What the capture leaves alone *)

Ltac in_rec :=
  repeat first [apply Forall_nil | apply Forall_cons | apply Forall_app_intro];
  unfold in_record; cbn [fst]; layout; (split; [lia|reflexivity]).

Lemma late_writes_in_record cfg s : Forall in_record (late_writes cfg s).
Proof.
  unfold late_writes.
  repeat apply Forall_app_intro.
  - unfold fault_writes, secure_writes, ras_writes, core_fault_writes.
    destruct (ARM_FAULT_FAULT_REGS_EXIST cfg),
             (ARM_FAULT_ARCH_ARMV8x_M_MAIN cfg && ARM_FAULT_TZ_SECURE cfg),
             (ARM_FAULT_ARCH_ARMV8_1M_MAIN cfg); in_rec.
  - unfold lim_writes. destruct (limits_stored _ _); in_rec.
  - unfold exc_writes. in_rec.
  - unfold ctx_writes, basic_writes, additional_writes.
    destruct (stack_invalid_b cfg s), (additional_pushed cfg (get LR s));
      in_rec.
  - unfold tz_writes. destruct (_ && _); in_rec.
Qed.

Lemma wipe_writes_in_record : Forall in_record wipe_writes.
Proof.
  unfold wipe_writes. apply Forall_forall. intros e He.
  apply in_map_iff in He. destruct He as (i & <- & Hi).
  apply in_rev, in_seq in Hi. unfold in_record. cbn [fst]. layout.
  split; [lia|]. rewrite Z.mul_comm. apply Z.mod_mul. lia.
Qed.

Lemma capture_writes_in_record cfg s : Forall in_record (capture_writes cfg s).
Proof.
  unfold capture_writes. rewrite body_writes_late. unfold entry_writes.
  apply Forall_app_intro; [unfold seal_writes; in_rec|].
  apply Forall_app_intro; [apply late_writes_in_record|].
  apply Forall_app_intro; [unfold early_writes; in_rec|].
  apply wipe_writes_in_record.
Qed.

(** X9: a capture stores into words of the record only; the bus, the
    banked stack pointers and stack limits, EXC_RETURN and R8 .. R11 are as
    at entry.  (R0 .. R7 and the flags of xPSR are not: the routine uses
    them.) *)
Theorem capture_touches_only_the_record cfg s :
  let t := ARM_FaultSave cfg s in
  bus t = bus s /\ sregs t = sregs s /\ get LR t = get LR s /\
  get R8 t = get R8 s /\ get R9 t = get R9 s /\
  get R10 t = get R10 s /\ get R11 t = get R11 s /\
  exists W, log t = W ++ log s /\ fi t = replay W (fi s) /\
            Forall in_record W.
Proof.
  cbv zeta.
  destruct (ARM_FaultSave_extends cfg s)
    as (L & F & B & S & R & R8 & R9 & R10 & R11 & _).
  repeat split; try assumption.
  exists (capture_writes cfg s).
  repeat split; try assumption. apply capture_writes_in_record.
Qed.

(** ** The scratch registers *)

Lemma restored_r4_to_r7_regs cfg u :
  let t := restored_r4_to_r7 cfg u in
  let c := ARM_FAULT_ARCH_ARMV8x_M cfg &&
           (wrap32 (load (fi u) IntegritySignature_addr
                    - ARM_FAULT_ASC_INTEGRITY_SIG) =? 0) in
  get R4 t = (if c then 0 else load (fi u) r4_addr) /\
  get R5 t = (if c then 0 else load (fi u) (r4_addr + 4)) /\
  get R6 t = (if c then 0 else load (fi u) (r4_addr + 8)) /\
  get R7 t = (if c then 0 else load (fi u) (r4_addr + 12)).
Proof.
  cbv zeta. split_cfg cfg. destruct v8; cbn [andb].
  - destruct (wrap32 (load (fi u) IntegritySignature_addr
                      - ARM_FAULT_ASC_INTEGRITY_SIG) =? 0) eqn:E;
      sections; branch; repeat split; reflexivity.
  - sections. repeat split; reflexivity.
Qed.

(** X10: unless an additional state context was copied from a usable stack,
    the routine hands R4 .. R7 to [ARM_FaultExit] with their values at
    entry. *)
Theorem scratch_registers_restored cfg s :
  stack_invalid cfg s \/ ARM_FAULT_ARCH_ARMV8x_M cfg = false \/
  Z.testbit (get LR s) 5 = true ->
  let t := ARM_FaultSave cfg s in
  get R4 t = get R4 s /\ get R5 t = get R5 s /\
  get R6 t = get R6 s /\ get R7 t = get R7 s.
Proof.
  intros H. cbv zeta.
  destruct (ARM_FaultSave_body cfg s) as (t & -> & (_ & F & _)).
  unfold asm_block_3, seq.
  destruct (calc_crc32_spec t) as (_ & CF & _).
  generalize dependent (calc_crc32 t). intros u CF.
  destruct (restored_r4_to_r7_regs cfg
              (dsb (store_magic_number (store_crc32 u))))
    as (R4 & R5 & R6 & R7).
  rewrite R4, R5, R6, R7. clear R4 R5 R6 R7.
  change (fi (dsb (store_magic_number (store_crc32 u))))
    with (replay [ (magic_number_addr, ARM_FAULT_MAGIC_NUMBER);
                   (crc32_addr, get R0 u) ]
                 (fi u)).
  rewrite CF, F.
  generalize (get R0 u). intros crc.
  rewrite !(load_replay_skip [_; _])
    by (repeat apply Forall_cons; try apply Forall_nil; cbn [fst]; layout; lia).
  rewrite !frame_cell by (layout; lia).
  assert (C : ctx_writes cfg (stack_invalid_b cfg s) (get LR s) (bus s)
                (stacked_sp cfg s) (info_after_tz cfg s) = [] \/
              ctx_writes cfg (stack_invalid_b cfg s) (get LR s) (bus s)
                (stacked_sp cfg s) (info_after_tz cfg s) =
              basic_writes (bus s) (stacked_sp cfg s) (info_after_tz cfg s)).
  { unfold ctx_writes, additional_pushed.
    destruct H as [H|[H|H]].
    - rewrite (stack_invalid_b_true cfg s H). left. reflexivity.
    - rewrite H. destruct (stack_invalid_b cfg s); auto.
    - rewrite H, andb_false_r. destruct (stack_invalid_b cfg s); auto. }
  destruct C as [-> | ->];
    change (wrap32 (0 - ARM_FAULT_ASC_INTEGRITY_SIG) =? 0) with false;
    rewrite andb_false_r; repeat split; reflexivity.
Qed.

Lemma scratch_registers_restored_witness :
  get R4 (ARM_FaultSave cfg_v7m s_zero_sp) = get R4 s_zero_sp.
Proof.
  apply (scratch_registers_restored cfg_v7m s_zero_sp).
  left. left. reflexivity.
Defined.

(** ** The loops *)

(** X11: both loops of the routine are left through their exit test, with
    their counter at zero: the wipe after 36 words, with R1 at the end of
    the record, and the checksum loop after the 136 bytes of the payload. *)
Theorem loops_leave_through_their_test s :
  (let t := clear_ARM_FaultInfo s in
   flagZ t = true /\ get R2 t = 0 /\ get R1 t = sizeof_ARM_FaultInfo) /\
  (let t := calc_crc32 s in flagZ t = true /\ get R2 t = 0).
Proof.
  split.
  - cbv zeta. repeat split; reflexivity.
  - cbv zeta.
    destruct (crc32_asm_spec ARM_FAULT_CRC32_INIT_VAL crc_data_ptr crc_data_len
                ARM_FAULT_CRC32_POLYNOM s) as (_ & _ & H2 & HZ);
      [vm_compute; intuition discriminate..|].
    split; assumption.
Qed.

(** ** The wipe and [ARM_FaultClear] *)

Lemma replay_zero_map l m a :
  load (replay (map (fun i => (4 * Z.of_nat i, 0)) l) m) a =
  if existsb (fun i => a =? 4 * Z.of_nat i) l then 0 else load m a.
Proof.
  induction l as [|i l IH]; [reflexivity|].
  cbn [map replay fold_right fst snd existsb] in *. unfold load, store in *.
  destruct (a =? 4 * Z.of_nat i); [reflexivity|exact IH].
Qed.

(** X12: the wipe loop of the capture routine clears exactly the words that
    [ARM_FaultClear] clears and leaves every cell outside the record as it
    was. *)
Theorem wipe_is_ARM_FaultClear s a :
  a mod 4 = 0 \/ ~ (0 <= a < sizeof_ARM_FaultInfo) ->
  load (fi (clear_ARM_FaultInfo s)) a = load (ARM_FaultClear (fi s)) a.
Proof.
  intros H.
  change (fi (clear_ARM_FaultInfo s)) with (replay wipe_writes (fi s)).
  unfold wipe_writes. rewrite replay_zero_map.
  unfold ARM_FaultClear, load. layout.
  destruct (existsb _ _) eqn:E.
  - apply existsb_exists in E. destruct E as (i & Hi & Ha).
    apply in_rev, in_seq in Hi. apply Z.eqb_eq in Ha.
    destruct (Z.leb_spec 0 a); [|lia].
    destruct (Z.ltb_spec a 144); [reflexivity|lia].
  - destruct (Z.leb_spec 0 a); [|reflexivity].
    destruct (Z.ltb_spec a 144); [|reflexivity].
    cbn [andb]. exfalso.
    destruct H as [H|H]; [|lia].
    assert (X : existsb (fun i => a =? 4 * Z.of_nat i) (rev (List.seq 0 36)) = true).
    { apply existsb_exists. exists (Z.to_nat (a / 4)). split.
      - apply in_rev. rewrite rev_involutive. apply in_seq.
        assert (0 <= a / 4 < 36)
          by (split; [apply Z.div_pos; lia|apply Z.div_lt_upper_bound; lia]).
        lia.
      - apply Z.eqb_eq. rewrite Z2Nat.id by (apply Z.div_pos; lia).
        pose proof (Z.div_mod a 4 ltac:(lia)). lia. }
    congruence.
Qed.

Lemma wipe_is_ARM_FaultClear_witness :
  load (fi (clear_ARM_FaultInfo s_count_max)) count_addr
  = load (ARM_FaultClear (fi s_count_max)) count_addr.
Proof. apply wipe_is_ARM_FaultClear. left. reflexivity. Defined.

(** ** A single bit anywhere in the record *)

Lemma lxor_bit_neq x b : 0 <= b -> Z.lxor x (Z.shiftl 1 b) <> x.
Proof.
  intros Hb E.
  rewrite <- (Z.lxor_0_r x) in E at 2. apply lxor_cancel_l in E.
  apply (f_equal (fun y => Z.testbit y b)) in E.
  rewrite testbit_mask, Z.eqb_refl, Z.bits_0 in E by lia. discriminate.
Qed.

(** X13: on a record that the validity check accepts, inverting any single
    bit of any of its 36 words (the magic number and the checksum
    included) makes the validity check return 0. *)
Theorem any_bit_flip_invalidates m a b :
  ARM_FaultOccurred m = 1 ->
  a mod 4 = 0 -> 0 <= a < sizeof_ARM_FaultInfo -> 0 <= b < 32 ->
  ARM_FaultOccurred (flip_bit a b m) = 0.
Proof.
  intros V Ha Hr Hb. layout.
  destruct (Z.ltb_spec a 8) as [Lt|Ge];
    [|apply flip_payload_bit; [exact V|exact Ha|layout; lia|exact Hb]].
  pose proof (Z.div_mod a 4 ltac:(lia)) as D.
  assert (A : a = 0 \/ a = 4) by lia.
  pose proof V as V'. apply occurred_true_iff in V'. destruct V' as (Vm & Vc).
  unfold Field.magic_number, Field.crc32 in *. layout.
  destruct A as [-> | ->].
  - apply ARM_FaultOccurred_bad_magic.
    unfold Field.magic_number, flip_bit, load, store. layout.
    rewrite Z.eqb_refl. unfold load in Vm. rewrite Vm.
    apply lxor_bit_neq. lia.
  - rewrite ARM_FaultOccurred_cases.
    rewrite <- (CalcCRC32_reads_range_cells m (flip_bit 4 b m)).
    + rewrite <- Vc.
      replace (Field.crc32 (flip_bit 4 b m) =? load m 4) with false;
        [rewrite andb_false_r; reflexivity|].
      symmetry. apply Z.eqb_neq.
      unfold Field.crc32, flip_bit, load, store. layout.
      rewrite Z.eqb_refl. apply lxor_bit_neq. lia.
    + intros i Hi. symmetry. apply load_byte_store_other.
      assert (K : 0 <= i mod 4 < 4) by (apply Z.mod_pos_bound; lia).
      pose proof (Z.div_mod i 4 ltac:(lia)). layout. lia.
Qed.

Lemma any_bit_flip_invalidates_witness :
  ARM_FaultOccurred (flip_bit crc32_addr 31 sealed_blank) = 0.
Proof.
  apply (any_bit_flip_invalidates sealed_blank crc32_addr 31);
    vm_compute; intuition congruence.
Defined.

(** ** [ARM_FaultExit] *)

Lemma ARM_FaultExit_flags cfg s :
  let t := ARM_FaultExit cfg s in
  let r := Z.lor aircr_val (Z.land (load (bus s) aircr_addr) aircr_msk) in
  flagC t = flagC s /\ flagV t = flagV s /\
  flagN t = (if ARM_FAULT_FAULT_REGS_EXIST cfg then Z.testbit r 31
             else flagN s) /\
  flagZ t = (if ARM_FAULT_FAULT_REGS_EXIST cfg then r =? 0 else flagZ s).
Proof.
  cbv zeta. split_cfg cfg. destruct fr; repeat split; reflexivity.
Qed.

Lemma aircr_result_flags old :
  Z.testbit (Z.lor aircr_val (Z.land old aircr_msk)) 31 = false /\
  (Z.lor aircr_val (Z.land old aircr_msk) =? 0) = false.
Proof.
  split.
  - rewrite Z.lor_spec, Z.land_spec.
    change (Z.testbit aircr_val 31) with false.
    change (Z.testbit aircr_msk 31) with false.
    apply andb_false_r.
  - apply Z.eqb_neq. intros E.
    apply (f_equal (fun x => Z.testbit x 2)) in E.
    rewrite Z.lor_spec, Z.bits_0 in E.
    change (Z.testbit aircr_val 2) with true in E. discriminate.
Qed.

Lemma ARM_FaultExit_state cfg s :
  let t := ARM_FaultExit cfg s in
  fi t = fi s /\ log t = log s /\ sregs t = sregs s /\
  bus t = store aircr_addr
                (Z.lor aircr_val
                       (if ARM_FAULT_FAULT_REGS_EXIST cfg
                        then Z.land (load (bus s) aircr_addr)
                                    aircr_msk
                        else 0))
                (bus s).
Proof.
  cbv zeta. split_cfg cfg. destruct fr; repeat split; reflexivity.
Qed.

Lemma aircr_bits (old : Z) (e : bool) :
  let v := Z.lor (Z.lor (Z.shiftl 0x5FA SCB_AIRCR_VECTKEY_Pos)
                        SCB_AIRCR_SYSRESETREQ_Msk)
                 (if e then Z.land old SCB_AIRCR_PRIGROUP_Msk else 0) in
  Z.shiftr v 16 = 0x5FA /\
  (forall i, 0 <= i < 16 ->
     Z.testbit v i =
     (i =? 2) || (e && (8 <=? i) && (i <=? 10) && Z.testbit old i)).
Proof.
  cbv zeta. split.
  - rewrite !Z.shiftr_lor. destruct e.
    + rewrite Z.shiftr_land.
      change (Z.shiftr SCB_AIRCR_PRIGROUP_Msk 16) with 0.
      rewrite Z.land_0_r. reflexivity.
    + reflexivity.
  - intros i Hi. rewrite !Z.lor_spec.
    assert (K : Z.testbit (Z.shiftl 0x5FA SCB_AIRCR_VECTKEY_Pos) i = false).
    { unfold SCB_AIRCR_VECTKEY_Pos. rewrite Z.shiftl_spec by lia.
      apply Z.testbit_neg_r. lia. }
    rewrite K. cbn [orb].
    unfold SCB_AIRCR_SYSRESETREQ_Msk. rewrite testbit_mask by lia.
    rewrite (Z.eqb_sym 2 i). f_equal.
    destruct e; cbn [andb]; [|apply Z.bits_0].
    rewrite Z.land_spec, andb_comm. f_equal.
    assert (C : i = 0 \/ i = 1 \/ i = 2 \/ i = 3 \/ i = 4 \/ i = 5 \/ i = 6 \/
                i = 7 \/ i = 8 \/ i = 9 \/ i = 10 \/ i = 11 \/ i = 12 \/
                i = 13 \/ i = 14 \/ i = 15) by lia.
    repeat (destruct C as [-> | C]; [reflexivity|]). subst i. reflexivity.
Qed.

(** X14: the default exit routine writes one cell, the Application
    Interrupt and Reset Control Register of the Secure-or-only System
    Control Block.  The word written carries the key 0x5FA in its upper
    half and the reset request (bit 2); of the lower half, only the three
    priority-grouping bits 8 .. 10 can be set besides, and they are the bits
    the register held before when the fault registers exist, clear
    otherwise.  The record, the store log, the banked stack pointers and
    stack limits and every other cell of the bus are as before.  Of the
    flags of xPSR, C and V are as before; where the fault registers exist
    the final [orrs] leaves N and Z clear, its result having bit 2 set and
    bit 31 clear. *)
Theorem ARM_FaultExit_reset_request cfg s :
  let t := ARM_FaultExit cfg s in
  let old := load (bus s) (SCB_BASE + aircr_ofs) in
  let v := load (bus t) (SCB_BASE + aircr_ofs) in
  fi t = fi s /\ log t = log s /\ sregs t = sregs s /\
  (forall a, a <> SCB_BASE + aircr_ofs -> load (bus t) a = load (bus s) a) /\
  Z.shiftr v 16 = 0x5FA /\
  (forall i, 0 <= i < 16 ->
     Z.testbit v i =
     (i =? 2) || (ARM_FAULT_FAULT_REGS_EXIST cfg && (8 <=? i) && (i <=? 10)
                  && Z.testbit old i)) /\
  flagC t = flagC s /\ flagV t = flagV s /\
  flagN t = (if ARM_FAULT_FAULT_REGS_EXIST cfg then false else flagN s) /\
  flagZ t = (if ARM_FAULT_FAULT_REGS_EXIST cfg then false else flagZ s).
Proof.
  cbv zeta.
  destruct (ARM_FaultExit_state cfg s) as (F & L & S & B).
  destruct (ARM_FaultExit_flags cfg s) as (FC & FV & FN & FZ).
  cbv zeta in FN, FZ.
  destruct (aircr_result_flags (load (bus s) aircr_addr)) as (N31 & NZ).
  rewrite N31 in FN. rewrite NZ in FZ. clear N31 NZ.
  rewrite B. clear B.
  unfold aircr_addr, aircr_val, aircr_msk.
  repeat split; try assumption.
  - intros a Ha. unfold load, store.
    destruct (Z.eqb_spec a (SCB_BASE + aircr_ofs)); [contradiction|reflexivity].
  - unfold load at 1, store. rewrite Z.eqb_refl.
    apply (aircr_bits (load (bus s) (SCB_BASE + aircr_ofs))
                      (ARM_FAULT_FAULT_REGS_EXIST cfg)).
  - unfold load at 1, store. rewrite Z.eqb_refl.
    apply (aircr_bits (load (bus s) (SCB_BASE + aircr_ofs))
                      (ARM_FAULT_FAULT_REGS_EXIST cfg)).
Qed.

(** X15: a capture followed by the default exit routine: when the reset is
    requested the record passes the validity check, its counter is the one
    found at entry plus one (32-bit addition), and the exit routine has
    stored nothing into the record. *)
Theorem capture_then_exit cfg s :
  let t := ARM_FaultExit cfg (ARM_FaultSave cfg s) in
  ARM_FaultOccurred (fi t) = 1 /\
  Field.count (fi t) = wrap32 (Field.count (fi s) + 1) /\
  log t = log (ARM_FaultSave cfg s).
Proof.
  cbv zeta.
  destruct (ARM_FaultExit_state cfg (ARM_FaultSave cfg s)) as (F & L & _).
  rewrite F, L. repeat split.
  - apply ARM_FaultSave_sealed.
  - apply count_after_capture.
Qed.

(** X16: the first capture after [ARM_FaultClear] leaves a valid record
    whose counter is 1, whatever the build and the state at entry. *)
Theorem capture_after_clear cfg s m :
  fi s = ARM_FaultClear m ->
  ARM_FaultOccurred (fi (ARM_FaultSave cfg s)) = 1 /\
  Field.count (fi (ARM_FaultSave cfg s)) = 1.
Proof.
  intros H. split; [apply ARM_FaultSave_sealed|].
  rewrite count_after_capture, H. reflexivity.
Qed.

Lemma capture_after_clear_witness :
  Field.count (fi (ARM_FaultSave cfg_v7m s_cleared)) = 1.
Proof.
  apply (capture_after_clear cfg_v7m s_cleared (fun _ => 0x55555555)).
  reflexivity.
Defined.
